(** * Positronic Telegram bot: session history and message pipeline

    A shallow embedding of [bot.py]: the per-user [context.user_data]
    dictionary, the handlers [clear_history] and [handle_message], the
    backend call [call_openai_api], the dispatch of updates to handlers, and
    the turns of two users that overlap at their [await]s.

    Handlers are written in a small monad that threads what the Python code
    touches: the user's dictionary, the answers of the two remote services
    (the OpenAI endpoint and the Telegram transport, both of which may
    raise), and the trace of what the handler did to the outside world.
    A raised exception keeps every mutation made before it, as in Python. *)

From Stdlib Require Import QArith Ascii.
From stdpp Require Import gmap strings list fin_maps.

Close Scope Q_scope.

(** ** Data model *)

(** One entry of a conversation: the dict [{"role": r, "content": c}]. *)
Record message := Message { role : string; content : string }.

(** [context.user_data]: the dictionary the framework keeps for one user.
    The program stores lists of messages under string keys (['messages'])
    and, in [clear_history], a dict [{'messages': []}] under the integer key
    [user_id]. A string key and an integer key are never the same key, so the
    dictionary is kept as two finite maps, one per key type. *)
Record user_data := UserData {
  str_items : gmap string (list message);
  int_items : gmap Z (gmap string (list message))
}.

Definition empty_user_data : user_data := UserData ∅ ∅.

(** [application.user_data]: one dictionary per user id, created empty on
    first access. *)
Abbreviation store := (gmap Z user_data).

Definition user_data_of (st : store) (uid : Z) : user_data :=
  default empty_user_data (st !! uid).

(** The conversation of a user as [handle_message] reads it:
    [context.user_data['messages']], or the empty list it installs when the
    key is missing. *)
Definition history (ud : user_data) : list message :=
  default [] (str_items ud !! "messages").

Definition history_of (st : store) (uid : Z) : list message :=
  history (user_data_of st uid).

(** Configuration read from the environment at start-up, with the prompt
    constant; the wording of [SYSTEM_INSTRUCTIONS] is immaterial here. *)
Record config := Config {
  TELEGRAM_TOKEN : string;
  OPENAI_API_KEY : string;
  OPENAI_MODEL : string;
  CONFIDENCE_THRESHOLD : Q;
  SYSTEM_INSTRUCTIONS : string
}.

(** Exceptions: the class that [except] clauses dispatch on, and [str(e)]. *)
Inductive exn_class :=
  | APIError | AuthenticationError | IndexError | KeyError | TelegramError
  | AttributeError | OtherException.

Record exn := Exn { cls : exn_class; str : string }.

(** The keyword arguments of [openai.ChatCompletion.create]. *)
Record request := Request {
  model : string;
  messages : list message;
  temperature : Q;
  max_tokens : Z
}.

(** What the endpoint does with one request: it returns a response whose
    [choices] carry one text each, or it raises. *)
Inductive api_outcome :=
  | Returns (choices : list string)
  | Raises (e : exn).

(** ** Updates *)

Record user := User { id : Z; username : string; first_name : string }.

(** [update.message]: a new message. The handlers read its text and answer
    through it. *)
Record telegram_message := TelegramMessage { text : string }.

(** An incoming update whose effective message is a text, as far as the
    handlers and the filters of [main] look at it; an update without a text
    reaches no handler. [main] polls for all update types, and the handlers
    it registers filter on the effective message of the update. So they also
    receive edited messages and channel posts: for those [update.message] is
    [None], and a channel post has no [effective_user] either. Every update
    with a message has a chat, so [update.effective_chat.id] is always
    there.

    [command] is the bot command that the effective message starts with, if
    it starts with one: as typed, without the slash, and without the name of
    this bot when that was appended ([/help@this_bot]); the name of another
    bot stays, and such a command matches no handler. *)
Record Update := MkUpdate {
  effective_user : option user;
  effective_chat : Z;
  update_message : option telegram_message;
  command : option string
}.

(** A new message with text [t] from [u]: the update the handlers are
    written for. *)
Definition new_message (u : user) (chat : Z) (t : string) (c : option string)
  : Update :=
  MkUpdate (Some u) chat (Some (TelegramMessage t)) c.

(** ** Logs and traces *)

Inductive level := INFO | ERROR.

Inductive log_msg :=
  | NewUserStarted (uid : Z) (username : string)
  | HistoryCleared (uid : Z)
  | MessageFrom (uid : Z) (text : string)
  | ResponseSent (uid : Z)
  | ErrorProcessing (uid : Z) (detail : string)
  | OpenAIAPIError (detail : string)
  | OpenAIAuthFailed
  | OpenAIUnexpected (detail : string)
  | UpdateCausedError (update : Update) (detail : string).

(** What a handler does to the outside world, in order. A transport call
    carries whether it was delivered or raised. *)
Inductive event :=
  | ChatAction (chat_id : Z) (delivered : bool)
  | Reply (text : string) (delivered : bool)
  | ChatCompletionCreate (req : request)
  | Log (lvl : level) (msg : log_msg).

(** ** The handler monad *)

(** The state a handler runs in: its user's dictionary, the trace so far, and
    the behaviour of the two services during this run. [telegram] lists, call
    by call, whether the next transport call raises ([Some e]) or is
    delivered ([None], also when the list is exhausted). *)
Record hstate := HState {
  data : user_data;
  trace : list event;
  telegram : list (option exn);
  openai : api_outcome
}.

Inductive result (A : Type) :=
  | Ok (a : A)
  | Raised (e : exn).
Arguments Ok {A} a.
Arguments Raised {A} e.

Definition M (A : Type) : Type := hstate → result A * hstate.

#[global] Instance M_ret : MRet M := λ A a s, (Ok a, s).

#[global] Instance M_bind : MBind M := λ A B f m s,
  match m s with
  | (Ok a, s') => f a s'
  | (Raised e, s') => (Raised e, s')
  end.

Definition raise {A} (e : exn) : M A := λ s, (Raised e, s).

(** [x.name] where [x] may be [None]: [AttributeError] when it is. *)
Definition no_attribute (name : string) : exn :=
  Exn AttributeError
      ("'NoneType' object has no attribute '" +:+ name +:+ "'").

Definition attr {A} (name : string) (x : option A) : M A :=
  match x with
  | Some a => mret a
  | None => raise (no_attribute name)
  end.

(** Nothing to do (a branch that is absent in the source). *)
Definition pass : M unit := mret tt.

(** [try: body except Exception as e: handler(e)] *)
Definition try_except {A} (body : M A) (handler : exn → M A) : M A := λ s,
  match body s with
  | (Ok a, s') => (Ok a, s')
  | (Raised e, s') => handler e s'
  end.

Definition get_user_data : M user_data := λ s, (Ok (data s), s).

Definition put_user_data (ud : user_data) : M unit := λ s,
  (Ok tt, HState ud (trace s) (telegram s) (openai s)).

Definition emit (ev : event) : M unit := λ s,
  (Ok tt, HState (data s) (trace s ++ [ev]) (telegram s) (openai s)).

(** What the next transport call raises, if anything. *)
Definition next_fault (tg : list (option exn)) : option exn :=
  match tg with
  | Some e :: _ => Some e
  | _ => None
  end.

(** One call into the transport: delivered, or raising what the transport
    raises for this call. Either way the call is consumed and recorded. *)
Definition transport_call (ev : bool → event) : M unit := λ s,
  match next_fault (telegram s) with
  | Some e =>
      (Raised e,
       HState (data s) (trace s ++ [ev false]) (tail (telegram s)) (openai s))
  | None =>
      (Ok tt,
       HState (data s) (trace s ++ [ev true]) (tail (telegram s)) (openai s))
  end.

Definition reply_text (text : string) : M unit := transport_call (Reply text).

Definition send_chat_action (chat_id : Z) : M unit :=
  transport_call (ChatAction chat_id).

Definition logger_info (m : log_msg) : M unit := emit (Log INFO m).
Definition logger_error (m : log_msg) : M unit := emit (Log ERROR m).

(** [openai.ChatCompletion.create], called with keyword arguments [req]. *)
Definition ChatCompletion_create (req : request) : M (list string) := λ s,
  match emit (ChatCompletionCreate req) s with
  | (_, s') =>
      match openai s with
      | Returns choices => (Ok choices, s')
      | Raises e => (Raised e, s')
      end
  end.

(** [choices[0]]: the first element, [IndexError] on an empty list. *)
Definition first_choice (choices : list string) : M string :=
  match choices with
  | c :: _ => mret c
  | [] => raise (Exn IndexError "list index out of range")
  end.

(** ** Python helpers *)

(** Truth value of an [Optional[str]]: [None] and the empty string are
    false. *)
Definition truthy (r : option string) : bool :=
  match r with
  | None => false
  | Some EmptyString => false
  | Some _ => true
  end.

(** [s.lower()] on the characters a bot command is made of (Latin letters,
    digits and the underscore): a capital letter becomes the small one, every
    other character stays. *)
Definition lower_ascii (a : ascii) : ascii :=
  let n := nat_of_ascii a in
  if (65 <=? n) && (n <=? 90) then ascii_of_nat (n + 32) else a.

Fixpoint lower (s : string) : string :=
  match s with
  | EmptyString => EmptyString
  | String a s => String (lower_ascii a) (lower s)
  end.

(** [l[-n:]] for [n > 0]: the last [n] elements, the whole list when it has
    fewer. *)
Definition last_n {A} (n : nat) (l : list A) : list A :=
  drop (length l - n) l.

(** ** Dictionary operations on [context.user_data] *)

(** [k in context.user_data] for a string key and for an integer key. *)
Definition has_str_key (k : string) (ud : user_data) : bool :=
  bool_decide (is_Some (str_items ud !! k)).

Definition has_int_key (k : Z) (ud : user_data) : bool :=
  bool_decide (is_Some (int_items ud !! k)).

(** [context.user_data[k] = v] *)
Definition set_str_item (k : string) (v : list message) : M unit :=
  ud ← get_user_data;
  put_user_data (UserData (<[k := v]> (str_items ud)) (int_items ud)).

Definition set_int_item (k : Z) (v : gmap string (list message)) : M unit :=
  ud ← get_user_data;
  put_user_data (UserData (str_items ud) (<[k := v]> (int_items ud))).

(** [context.user_data[k]], [KeyError] when the key is missing. *)
Definition get_str_item (k : string) : M (list message) :=
  ud ← get_user_data;
  match str_items ud !! k with
  | Some v => mret v
  | None => raise (Exn KeyError k)
  end.

(** [context.user_data[k].append(m)]: the list held under [k] grows in
    place, so every name bound to that list sees the new element. *)
Definition list_append (k : string) (m : message) : M unit :=
  l ← get_str_item k;
  set_str_item k (l ++ [m]).

(** ** Handlers *)

Definition LF : string := String "010"%char EmptyString.

(** [update.message.reply_text(text)] *)
Definition message_reply_text (update : Update) (text : string) : M unit :=
  attr "reply_text" (update_message update);;
  reply_text text.

Definition start (update : Update) : M unit :=
  user ← attr "id" (effective_user update);
  logger_info (NewUserStarted (id user) (username user));;
  let welcome_message :=
    "Greetings, " +:+ first_name user +:+ "." +:+ LF +:+ LF +:+
    "I am a robopsychological analyst operating under S. Calvin's principles. " +:+
    "I will provide factual analysis without anthropomorphic bias or comforting lies." +:+ LF +:+ LF +:+
    "Send any message or query. I will analyze it according to logical necessity, " +:+
    "not social convenience." +:+ LF +:+ LF +:+
    "/help - View available commands" +:+ LF +:+
    "/about - Learn about my principles" in
  message_reply_text update welcome_message.

Definition help_command (update : Update) : M unit :=
  let help_text :=
    "/start - Initialize conversation" +:+ LF +:+
    "/help - Display this message" +:+ LF +:+
    "/about - Information about robopsychological principles" +:+ LF +:+
    "/clear - Reset conversation history" +:+ LF +:+ LF +:+
    "Simply send any message for analysis and response." in
  message_reply_text update help_text.

Definition about (update : Update) : M unit :=
  let about_text :=
    "I operate under the robopsychological framework of Dr. Susan Calvin:" +:+ LF +:+ LF +:+
    "• Facts take priority over comfort" +:+ LF +:+
    "• Truth is preferred to protecting illusions" +:+ LF +:+
    "• Logical consistency is mandatory" +:+ LF +:+
    "• Specification gaming and exploitation are prevented" +:+ LF +:+
    "• Epistemic honesty about uncertainty is required" +:+ LF +:+
    "• Your true intent matters more than literal words" +:+ LF +:+ LF +:+
    "I will correct false premises and refuse harmful requests, " +:+
    "regardless of social discomfort." in
  message_reply_text update about_text.

Definition CLEARED_TEXT : string :=
  "Conversation history cleared. Starting fresh analysis.".

(** [/clear]. The test is on the integer key [user_id] of the user's own
    dictionary, and so is the assignment. *)
Definition clear_history (update : Update) : M unit :=
  user ← attr "id" (effective_user update);
  let user_id := id user in
  ud ← get_user_data;
  (if has_int_key user_id ud
   then set_int_item user_id {[ "messages" := [] ]}
   else pass);;
  message_reply_text update CLEARED_TEXT;;
  logger_info (HistoryCleared user_id).

(** [call_openai_api]: the response text, or [None] on any error. *)
Definition call_openai_api (cfg : config) (messages : list message)
  : M (option string) :=
  try_except
    (choices ← ChatCompletion_create
         {| model := OPENAI_MODEL cfg;
            messages := messages;
            temperature := 0.7%Q;
            max_tokens := 2048 |};
     c ← first_choice choices;
     mret (Some c))
    (λ e,
       match cls e with
       | APIError => logger_error (OpenAIAPIError (str e));; mret None
       | AuthenticationError => logger_error OpenAIAuthFailed;; mret None
       | _ => logger_error (OpenAIUnexpected (str e));; mret None
       end).

Definition UNABLE_TEXT : string :=
  "Error: Unable to process request. Insufficient data or API error.".

Definition SYSTEM_ERROR_TEXT : string :=
  "System error: Unable to process your request. " +:+
  "Please try again or contact administrator.".

(** Free text. The sender and the text are read, and the typing indicator
    is sent, before the [try] block. [conversation_history] names the list
    stored under ['messages'], so the two appends change the stored list at
    once; the slice makes a new list, which the last assignment stores. *)
Definition handle_message (cfg : config) (update : Update) : M unit :=
  user ← attr "id" (effective_user update);
  let user_id := id user in
  m ← attr "text" (update_message update);
  let user_message := text m in
  logger_info (MessageFrom user_id user_message);;
  send_chat_action (effective_chat update);;
  try_except
    (ud ← get_user_data;
     (if has_str_key "messages" ud then pass
      else set_str_item "messages" []);;
     conversation_history ← get_str_item "messages";
     let messages :=
       [Message "system" (SYSTEM_INSTRUCTIONS cfg)]
       ++ conversation_history
       ++ [Message "user" user_message] in
     response ← call_openai_api cfg messages;
     if truthy response then
       let response := default EmptyString response in
       list_append "messages" (Message "user" user_message);;
       list_append "messages" (Message "assistant" response);;
       conversation_history ← get_str_item "messages";
       let conversation_history :=
         if bool_decide (40 < length conversation_history)
         then last_n 40 conversation_history
         else conversation_history in
       set_str_item "messages" conversation_history;;
       message_reply_text update response;;
       logger_info (ResponseSent user_id)
     else
       message_reply_text update UNABLE_TEXT)
    (λ e,
       logger_error (ErrorProcessing user_id (str e));;
       message_reply_text update SYSTEM_ERROR_TEXT).

Definition error_handler (update : Update) (e : exn) : M unit :=
  logger_error (UpdateCausedError update (str e)).

(** The handlers registered in [main], in order. A [CommandHandler] compares
    the command in lower case with its own name; a command with no handler is
    dropped, and text that does not start with a command goes to
    [handle_message]. *)
Definition dispatch (cfg : config) (update : Update) : M unit :=
  match command update with
  | Some c =>
      let c := lower c in
      if bool_decide (c = "start") then start update
      else if bool_decide (c = "help") then help_command update
      else if bool_decide (c = "about") then about update
      else if bool_decide (c = "clear") then clear_history update
      else pass
  | None => handle_message cfg update
  end.

(** A handler that raises is reported to the registered error handler. *)
Definition process_update (cfg : config) (update : Update) : M unit :=
  try_except (dispatch cfg update) (error_handler update).

(** ** The application: one dictionary per user *)

(** How the two services behave while one update is handled. *)
Record world := World {
  backend : api_outcome;
  transport : list (option exn)
}.

Definition run_handler (h : M unit) (w : world) (ud : user_data)
  : result unit * hstate :=
  h (HState ud [] (transport w) (backend w)).

(** Handle one update: [context.user_data] is the sender's dictionary, which
    keeps whatever the handler did to it. For an update without a sender
    there is no dictionary ([context.user_data] is [None]); every handler
    that reads it has raised on [update.effective_user.id] before, so the
    handler is run on an empty dictionary, which is dropped. *)
Definition deliver (cfg : config) (st : store) (uw : Update * world)
  : store * list event :=
  match effective_user uw.1 with
  | Some u =>
      let uid := id u in
      let r :=
        run_handler (process_update cfg uw.1) uw.2 (user_data_of st uid) in
      (<[uid := data r.2]> st, trace r.2)
  | None =>
      let r := run_handler (process_update cfg uw.1) uw.2 empty_user_data in
      (st, trace r.2)
  end.

(** Updates are handled one at a time, in arrival order: [main] builds the
    application without concurrent updates. *)
Definition run (cfg : config) (ups : list (Update * world)) (st : store)
  : store :=
  foldl (λ st uw, (deliver cfg st uw).1) st ups.

(** ** Observations and summaries used in the statements *)

(** The transport calls of a trace that carried a reply, with whether each
    was delivered; the texts the user actually saw; the requests made to the
    endpoint. *)
Definition replies (tr : list event) : list (string * bool) :=
  omap (λ ev, match ev with Reply t d => Some (t, d) | _ => None end) tr.

Definition shown (tr : list event) : list string :=
  omap (λ ev, match ev with Reply t true => Some t | _ => None end) tr.

Definition requests (tr : list event) : list request :=
  omap (λ ev, match ev with ChatCompletionCreate r => Some r | _ => None end)
       tr.

(** Whether the next transport call is delivered. *)
Definition delivered (tg : list (option exn)) : bool :=
  match next_fault tg with
  | Some _ => false
  | None => true
  end.

(** What [call_openai_api] returns for each behaviour of the endpoint, and
    what it logs. *)
Definition completion_text (o : api_outcome) : option string :=
  match o with
  | Returns (c :: _) => Some c
  | _ => None
  end.

Definition api_log (o : api_outcome) : list event :=
  match o with
  | Returns (_ :: _) => []
  | Returns [] => [Log ERROR (OpenAIUnexpected "list index out of range")]
  | Raises e =>
      match cls e with
      | APIError => [Log ERROR (OpenAIAPIError (str e))]
      | AuthenticationError => [Log ERROR OpenAIAuthFailed]
      | _ => [Log ERROR (OpenAIUnexpected (str e))]
      end
  end.

(** The dictionary with [h] stored under ['messages']. *)
Definition store_messages (h : list message) (ud : user_data) : user_data :=
  UserData (<["messages" := h]> (str_items ud)) (int_items ud).

(** The history after one run of the [try] body of [handle_message]. *)
Definition next_history (h : list message) (user_message : string)
    (response : option string) : list message :=
  if truthy response then
    let h' := (h ++ [Message "user" user_message])
                ++ [Message "assistant" (default EmptyString response)] in
    if bool_decide (40 < length h') then last_n 40 h' else h'
  else h.

(** The text of the first reply of [handle_message]. *)
Definition first_reply (response : option string) : string :=
  if truthy response then default EmptyString response else UNABLE_TEXT.

(** What [handle_message] reads from an update before anything else: the
    sender and the text of the new message. When one of the two is missing
    it raises [AttributeError] there. *)
Definition incoming (update : Update) : option (user * string) :=
  match effective_user update, update_message update with
  | Some u, Some m => Some (u, text m)
  | _, _ => None
  end.

(** A closed form of one run of [handle_message] on a new message with text
    [t] from [u]. *)
Definition turn_summary (cfg : config) (u : user) (chat : Z) (t : string)
    (w : world) (ud : user_data) : result unit * hstate :=
  let uid := id u in
  let tg := transport w in
  let t0 := [Log INFO (MessageFrom uid t)] in
  match next_fault tg with
  | Some e =>
      (Raised e,
       HState ud (t0 ++ [ChatAction chat false]) (tail tg) (backend w))
  | None =>
      let msgs := [Message "system" (SYSTEM_INSTRUCTIONS cfg)]
                    ++ history ud ++ [Message "user" t] in
      let resp := completion_text (backend w) in
      let t1 := t0 ++ [ChatAction chat true;
                       ChatCompletionCreate
                         (Request (OPENAI_MODEL cfg) msgs 0.7%Q 2048)]
                   ++ api_log (backend w) in
      let ud' := store_messages (next_history (history ud) t resp) ud in
      match next_fault (tail tg) with
      | None =>
          (Ok tt,
           HState ud'
             (t1 ++ Reply (first_reply resp) true
                 :: (if truthy resp then [Log INFO (ResponseSent uid)]
                     else []))
             (tail (tail tg)) (backend w))
      | Some e1 =>
          let t2 := t1 ++ [Reply (first_reply resp) false;
                           Log ERROR (ErrorProcessing uid (str e1))] in
          match next_fault (tail (tail tg)) with
          | None =>
              (Ok tt,
               HState ud' (t2 ++ [Reply SYSTEM_ERROR_TEXT true])
                      (tail (tail (tail tg))) (backend w))
          | Some e2 =>
              (Raised e2,
               HState ud' (t2 ++ [Reply SYSTEM_ERROR_TEXT false])
                      (tail (tail (tail tg))) (backend w))
          end
      end
  end.

(** A closed form of one run of [handle_message] on any update. *)
Definition handle_message_summary (cfg : config) (update : Update)
    (w : world) (ud : user_data) : result unit * hstate :=
  match effective_user update, update_message update with
  | Some u, Some m => turn_summary cfg u (effective_chat update) (text m) w ud
  | Some _, None =>
      (Raised (no_attribute "text"), HState ud [] (transport w) (backend w))
  | None, _ =>
      (Raised (no_attribute "id"), HState ud [] (transport w) (backend w))
  end.

(** The endpoint gave no text to read: it raised, or returned no choice.
    This is when [call_openai_api] returns [None]. *)
Definition failed (o : api_outcome) : bool :=
  match o with
  | Returns (_ :: _) => false
  | _ => true
  end.

(** A run of [handle_message] that gets through to the assignment of the
    history: the typing indicator is delivered and the endpoint returns a
    text that is true in Python. *)
Definition successful (w : world) : bool :=
  match next_fault (transport w) with
  | Some _ => false
  | None => truthy (completion_text (backend w))
  end.

(** The (user text, assistant text) pair of an update and its world. *)
Definition exchange_of (uw : Update * world) : string * string :=
  (default EmptyString (text <$> update_message uw.1),
   default EmptyString (completion_text (backend uw.2))).

(** A successful exchange of user [uid]: a new message of that user that is
    not a command, handled in a world where the run is successful. *)
Definition is_exchange (uid : Z) (uw : Update * world) : bool :=
  bool_decide (id <$> effective_user uw.1 = Some uid)
  && bool_decide (is_Some (update_message uw.1))
  && bool_decide (command uw.1 = None)
  && successful uw.2.

(** The messages of a list of (user, assistant) pairs, oldest first. *)
Fixpoint turns (xs : list (string * string)) : list message :=
  match xs with
  | [] => []
  | (u, r) :: xs => Message "user" u :: Message "assistant" r :: turns xs
  end.

(** The dictionary after the assignment of [clear_history], which is made
    when the integer key [uid] is there. *)
Definition cleared (uid : Z) (ud : user_data) : user_data :=
  if has_int_key uid ud
  then UserData (str_items ud)
                (<[uid := {[ "messages" := [] ]}]> (int_items ud))
  else ud.

(** Whether the handler of command [c] gets as far as its reply on an
    update: [update.message] is there, and so is the sender for the two
    handlers that read the sender first. *)
Definition reaches_reply (c : string) (update : Update) : bool :=
  bool_decide (is_Some (update_message update))
  && (bool_decide (c = "help") || bool_decide (c = "about")
      || bool_decide (is_Some (effective_user update))).

(** ** Turns that overlap

    A run of [handle_message] can give control away at an [await] only: the
    typing indicator, the backend call, the reply, and the "system error"
    reply after a fault. Between two of them it runs alone. The turns below
    may overlap at every [await]; the request inside [call_openai_api] is a
    plain call, so that [await] never suspends in fact, and counting it in
    only adds schedules. This covers whatever order the event loop resumes
    two handlers in.

    [context.user_data] is the entry of [application.user_data] for the
    sender of the update, so a turn reads and writes the store at the key of
    its user. *)

(** How far a run of [handle_message] got: just called, suspended at one of
    its [await]s, or returned. *)
Inductive stage :=
  | Called
  | AwaitTyping
  | AwaitCompletion
  | AwaitReply (out : string) (answered : bool)
  | AwaitSystemError
  | Returned (r : result unit).

(** One run of [handle_message] on a new message: the sender, the chat and
    the text, what the two services still hold for it, how far it got and
    what it did so far. *)
Record task := Task {
  task_user : user;
  task_chat : Z;
  task_text : string;
  services : world;
  stage_of : stage;
  task_trace : list event
}.

Definition start_task (u : user) (chat : Z) (t : string) (w : world) : task :=
  Task u chat t w Called [].

Definition advance (k : task) (w : world) (s : stage) (tr : list event)
  : task :=
  Task (task_user k) (task_chat k) (task_text k) w s (task_trace k ++ tr).

(** Resume a task and run it up to its next [await] or to its end: from the
    call to the typing indicator (lines 192-198), from there to the backend
    call (200-215), to the reply (217-232), and after a fault of the reply to
    the "system error" message (236-241). The two appends go to the list that
    is stored when the task is resumed; that is the list the task has read,
    as no other task of the same user runs in between in what follows. *)
Definition resume (cfg : config) (k : task) (st : store) : task * store :=
  let user_id := id (task_user k) in
  let user_message := task_text k in
  let w := services k in
  let w' := World (backend w) (tail (transport w)) in
  match stage_of k with
  | Called =>
      (advance k w AwaitTyping [Log INFO (MessageFrom user_id user_message)],
       st)
  | AwaitTyping =>
      match next_fault (transport w) with
      | Some e =>
          (advance k w' (Returned (Raised e))
                   [ChatAction (task_chat k) false], st)
      | None =>
          let ud := user_data_of st user_id in
          let conversation_history := history ud in
          let messages :=
            [Message "system" (SYSTEM_INSTRUCTIONS cfg)]
            ++ conversation_history
            ++ [Message "user" user_message] in
          (advance k w' AwaitCompletion
                   [ChatAction (task_chat k) true;
                    ChatCompletionCreate
                      (Request (OPENAI_MODEL cfg) messages 0.7%Q 2048)],
           <[user_id := store_messages conversation_history ud]> st)
      end
  | AwaitCompletion =>
      let response := completion_text (backend w) in
      let ud := user_data_of st user_id in
      (advance k w (AwaitReply (first_reply response) (truthy response))
               (api_log (backend w)),
       if truthy response
       then <[user_id :=
                store_messages
                  (next_history (history ud) user_message response) ud]> st
       else st)
  | AwaitReply out answered =>
      match next_fault (transport w) with
      | None =>
          (advance k w' (Returned (Ok tt))
                   (Reply out true
                      :: (if answered then [Log INFO (ResponseSent user_id)]
                          else [])), st)
      | Some e =>
          (advance k w' AwaitSystemError
                   [Reply out false;
                    Log ERROR (ErrorProcessing user_id (str e))], st)
      end
  | AwaitSystemError =>
      match next_fault (transport w) with
      | None =>
          (advance k w' (Returned (Ok tt)) [Reply SYSTEM_ERROR_TEXT true], st)
      | Some e =>
          (advance k w' (Returned (Raised e))
                   [Reply SYSTEM_ERROR_TEXT false], st)
      end
  | Returned _ => (k, st)
  end.

(** [n] resumptions of one task with nothing in between. *)
Fixpoint alone (cfg : config) (n : nat) (k : task) (st : store)
  : task * store :=
  match n with
  | 0 => (k, st)
  | S n => let r := resume cfg k st in alone cfg n r.1 r.2
  end.

(** Two tasks on one store. A schedule says, step by step, which of the two
    is resumed: the first ([true]) or the second ([false]). *)
Definition resume_one (cfg : config) (c : store * (task * task))
    (first : bool) : store * (task * task) :=
  if first
  then let r := resume cfg c.2.1 c.1 in (r.2, (r.1, c.2.2))
  else let r := resume cfg c.2.2 c.1 in (r.2, (c.2.1, r.1)).

Definition interleave (cfg : config) (sched : list bool)
    (c : store * (task * task)) : store * (task * task) :=
  foldl (resume_one cfg) c sched.

(** How often a schedule resumes the first ([true]) or the second ([false])
    task. *)
Definition slots (b : bool) (sched : list bool) : nat :=
  length (filter (λ x, x = b) sched).

(** ** Concrete inputs *)

Definition cfg0 : config := Config "token" "key" "gpt-4" 0.8%Q "INSTRUCTIONS".
Definition alice : user := User 1 "alice" "Alice".
Definition bob : user := User 2 "bob" "Bob".

Definition says (u : user) (t : string) : Update :=
  new_message u (id u) t None.
Definition slash (u : user) (c : string) : Update :=
  new_message u (id u) ("/" +:+ c) (Some c).

(** The same message once its sender has edited it: it arrives as
    [update.edited_message], and [update.message] is [None]. *)
Definition edited (update : Update) : Update :=
  MkUpdate (effective_user update) (effective_chat update) None
           (command update).

(** The endpoint answers [r]; the transport delivers everything. *)
Definition answers (r : string) : world := World (Returns [r]) [].
Definition unauthorized : world :=
  World (Raises (Exn AuthenticationError "Incorrect API key provided")) [].

(** The [n]-th of a run of exchanges: alice sends one capital letter and is
    answered with the matching small letter. *)
Definition numbered (n : nat) : Update * world :=
  (says alice (String (ascii_of_nat (65 + n)) EmptyString),
   answers (String (ascii_of_nat (97 + n)) EmptyString)).

(** ** Start-up *)

(** One entry of the command menu: [BotCommand(command, description)]. *)
Record BotCommand := MkBotCommand {
  bot_command : string;
  description : string
}.

(** [post_init]: the menu it hands to [set_my_commands]. *)
Definition post_init : list BotCommand :=
  [MkBotCommand "start" "Initialize conversation";
   MkBotCommand "help" "Display help message";
   MkBotCommand "about" "Learn about robopsychological principles";
   MkBotCommand "clear" "Reset conversation history"].

(** How [main] ends: it raises [ValueError], or it builds the application
    with the token and polls. *)
Inductive startup :=
  | ValueError (msg : string)
  | Polling (token : string).

Inductive startup_log :=
  | TokenNotSet
  | ApiKeyNotSet
  | BotStarting.

(** [main], on the process environment: [os.getenv] is a lookup, [not x] on
    the result is true for [None] and for the empty string. *)
Definition main (environ : gmap string string) : list startup_log * startup :=
  let TELEGRAM_TOKEN := environ !! "TELEGRAM_BOT_TOKEN" in
  let OPENAI_API_KEY := environ !! "OPENAI_API_KEY" in
  if negb (truthy TELEGRAM_TOKEN) then
    ([TokenNotSet], ValueError "TELEGRAM_BOT_TOKEN is required")
  else if negb (truthy OPENAI_API_KEY) then
    ([ApiKeyNotSet], ValueError "OPENAI_API_KEY is required")
  else
    ([BotStarting], Polling (default EmptyString TELEGRAM_TOKEN)).

(** ** Shapes of dictionaries and traces *)

(** The entries of a trace logged at level ERROR. *)
Definition errors (tr : list event) : list log_msg :=
  omap (λ ev, match ev with Log ERROR m => Some m | _ => None end) tr.

(** A dictionary as the handlers leave it: no integer key, no string key
    but ['messages'], and under it at most 20 whole (user, assistant) pairs
    whose assistant text is not empty. *)
Definition well_formed (ud : user_data) : Prop :=
  int_items ud = ∅ ∧
  (∀ k, k ≠ "messages" → str_items ud !! k = None) ∧
  ∃ xs, history ud = turns xs ∧ length xs ≤ 20 ∧
        Forall (λ p, p.2 ≠ EmptyString) xs.

(** The transport raises on the second call of a run (in [handle_message],
    the first reply) and delivers the others. *)
Definition reply_lost (r : string) : world :=
  World (Returns [r]) [None; Some (Exn TelegramError "Timed out")].

(** The transport raises on the first call of a run (in [handle_message],
    the typing indicator). *)
Definition typing_lost (r : string) : world :=
  World (Returns [r]) [Some (Exn TelegramError "Timed out")].

(** The transport delivers the typing indicator and raises from then on. *)
Definition replies_lost (r : string) : world :=
  World (Returns [r]) [None; Some (Exn TelegramError "Timed out");
                       Some (Exn TelegramError "Timed out")].

(** * Proofs *)

(** ** Running the monad, one statement at a time *)

Section Exec.
Context {B : Type} (k : unit → M B).
Context (ud : user_data) (tr : list event) (tg : list (option exn))
        (api : api_outcome).

Lemma emit_bind ev :
  (emit ev ≫= k) (HState ud tr tg api) = k tt (HState ud (tr ++ [ev]) tg api).
Proof. reflexivity. Qed.

Lemma transport_call_bind ev :
  (transport_call ev ≫= k) (HState ud tr tg api) =
  match next_fault tg with
  | Some e => (Raised e, HState ud (tr ++ [ev false]) (tail tg) api)
  | None => k tt (HState ud (tr ++ [ev true]) (tail tg) api)
  end.
Proof.
  unfold mbind, M_bind, transport_call; simpl.
  destruct (next_fault tg); reflexivity.
Qed.

Lemma set_str_item_bind key v :
  (set_str_item key v ≫= k) (HState ud tr tg api) =
  k tt (HState (UserData (<[key := v]> (str_items ud)) (int_items ud))
               tr tg api).
Proof. reflexivity. Qed.

Lemma set_int_item_bind key v :
  (set_int_item key v ≫= k) (HState ud tr tg api) =
  k tt (HState (UserData (str_items ud) (<[key := v]> (int_items ud)))
               tr tg api).
Proof. reflexivity. Qed.

Lemma list_append_bind key l m :
  str_items ud !! key = Some l →
  (list_append key m ≫= k) (HState ud tr tg api) =
  k tt (HState (UserData (<[key := l ++ [m]]> (str_items ud))
                         (int_items ud)) tr tg api).
Proof.
  intros Hl. unfold list_append, get_str_item, mbind, M_bind, get_user_data.
  simpl. rewrite Hl. reflexivity.
Qed.
End Exec.

Lemma get_str_item_bind {B} (k : list message → M B) ud tr tg api key l :
  str_items ud !! key = Some l →
  (get_str_item key ≫= k) (HState ud tr tg api) = k l (HState ud tr tg api).
Proof.
  intros Hl. unfold get_str_item, mbind, M_bind, get_user_data.
  simpl. rewrite Hl. reflexivity.
Qed.

Lemma pass_bind {B} (k : unit → M B) s : (pass ≫= k) s = k tt s.
Proof. reflexivity. Qed.

Lemma ret_bind {A B} (k : A → M B) (a : A) s : (mret a ≫= k) s = k a s.
Proof. reflexivity. Qed.

Lemma attr_bind {A B} (k : A → M B) name a s :
  (attr name (Some a) ≫= k) s = k a s.
Proof. reflexivity. Qed.

Lemma attr_none_bind {A B} (k : A → M B) name s :
  (attr name None ≫= k) s = (Raised (no_attribute name), s).
Proof. reflexivity. Qed.

(** On an update with a new message, [update.message.reply_text] is the
    transport call. *)
Lemma message_reply_text_some eu chat m c :
  message_reply_text (MkUpdate eu chat (Some m) c) = reply_text.
Proof. reflexivity. Qed.

Lemma message_reply_text_none eu chat c txt s :
  message_reply_text (MkUpdate eu chat None c) txt s =
  (Raised (no_attribute "reply_text"), s).
Proof. reflexivity. Qed.

Lemma get_user_data_bind {B} (k : user_data → M B) ud tr tg api :
  (get_user_data ≫= k) (HState ud tr tg api) = k ud (HState ud tr tg api).
Proof. reflexivity. Qed.

Lemma transport_call_run ev ud tr tg api :
  transport_call ev (HState ud tr tg api) =
  match next_fault tg with
  | Some e => (Raised e, HState ud (tr ++ [ev false]) (tail tg) api)
  | None => (Ok tt, HState ud (tr ++ [ev true]) (tail tg) api)
  end.
Proof. reflexivity. Qed.

(** ** The backend call *)

Lemma call_openai_api_run cfg msgs ud tr tg api :
  call_openai_api cfg msgs (HState ud tr tg api) =
  (Ok (completion_text api),
   HState ud
     (tr ++ ChatCompletionCreate (Request (OPENAI_MODEL cfg) msgs 0.7%Q 2048)
         :: api_log api)
     tg api).
Proof.
  unfold call_openai_api, try_except, mbind, M_bind, ChatCompletion_create.
  destruct api as [[|c cs]|[k d]]; simpl.
  - rewrite <- app_assoc. reflexivity.
  - reflexivity.
  - destruct k; simpl; rewrite <- app_assoc; reflexivity.
Qed.

Lemma call_openai_api_bind {B} (k : option string → M B) cfg msgs ud tr tg api :
  (call_openai_api cfg msgs ≫= k) (HState ud tr tg api) =
  k (completion_text api)
    (HState ud
       (tr ++ ChatCompletionCreate (Request (OPENAI_MODEL cfg) msgs 0.7%Q 2048)
           :: api_log api)
       tg api).
Proof.
  unfold mbind at 1. unfold M_bind at 1. rewrite call_openai_api_run. reflexivity.
Qed.

(** ** One run of [handle_message] *)

Lemma history_store_messages h ud : history (store_messages h ud) = h.
Proof. unfold history, store_messages; simpl. by rewrite lookup_insert_eq. Qed.

Lemma store_messages_history ud :
  is_Some (str_items ud !! "messages") → store_messages (history ud) ud = ud.
Proof.
  intros [h Hh]. destruct ud as [sm im]; simpl in *.
  unfold store_messages, history; simpl. rewrite Hh; simpl.
  by rewrite insert_id.
Qed.

(** The first three statements of the [try] body: afterwards the key is
    present and [conversation_history] is the user's history. *)
Lemma read_history_bind {B} (k : list message → M B) ud tr tg api :
  (get_user_data ≫= λ ud0,
     (if has_str_key "messages" ud0 then pass else set_str_item "messages" [])
     ≫= λ _, get_str_item "messages" ≫= k) (HState ud tr tg api) =
  k (history ud) (HState (store_messages (history ud) ud) tr tg api).
Proof.
  rewrite get_user_data_bind. unfold has_str_key, history.
  destruct (str_items ud !! "messages") as [h|] eqn:Hh; simpl.
  - rewrite pass_bind, (get_str_item_bind _ _ _ _ _ _ h Hh).
    replace (store_messages h ud) with ud; [done|].
    symmetry. rewrite <- (store_messages_history ud) at 2; [|by rewrite Hh].
    unfold history. by rewrite Hh.
  - rewrite set_str_item_bind.
    erewrite get_str_item_bind; [done|]. simpl. by rewrite lookup_insert_eq.
Qed.

Lemma turn_run cfg u chat t c w ud :
  run_handler (handle_message cfg (new_message u chat t c)) w ud =
  turn_summary cfg u chat t w ud.
Proof.
  destruct w as [api tg].
  unfold run_handler, handle_message, turn_summary, new_message; simpl.
  rewrite !ret_bind, !message_reply_text_some; simpl.
  unfold logger_info, logger_error, send_chat_action, reply_text.
  rewrite emit_bind, transport_call_bind; simpl.
  destruct (next_fault tg) as [e|]; [reflexivity|].
  unfold try_except.
  rewrite read_history_bind, call_openai_api_bind.
  set (h := history ud).
  assert (Hh : str_items (store_messages h ud) !! "messages" = Some h)
    by (simpl; by rewrite lookup_insert_eq).
  unfold next_history, first_reply.
  destruct (truthy (completion_text api)) eqn:Ht.
  - rewrite (list_append_bind _ _ _ _ _ _ _ _ Hh).
    erewrite list_append_bind; [|simpl; by rewrite lookup_insert_eq].
    erewrite get_str_item_bind; [|simpl; by rewrite lookup_insert_eq].
    rewrite set_str_item_bind, transport_call_bind; simpl.
    rewrite !insert_insert_eq.
    destruct (next_fault (tail tg)) as [e1|]; simpl.
    + rewrite emit_bind, transport_call_run.
      destruct (next_fault (tail (tail tg))); simpl;
        rewrite <- ?app_assoc; reflexivity.
    + rewrite <- ?app_assoc; reflexivity.
  - rewrite transport_call_run; simpl.
    destruct (next_fault (tail tg)) as [e1|]; simpl.
    + rewrite emit_bind, transport_call_run.
      destruct (next_fault (tail (tail tg))); simpl;
        rewrite <- ?app_assoc; reflexivity.
    + rewrite <- ?app_assoc; reflexivity.
Qed.

Lemma handle_message_run cfg update w ud :
  run_handler (handle_message cfg update) w ud =
  handle_message_summary cfg update w ud.
Proof.
  destruct update as [[u|] chat [[t]|] c]; unfold handle_message_summary;
    simpl; [apply turn_run|reflexivity..].
Qed.


(** ** The other handlers and the dispatcher *)

(** One call of [update.message.reply_text]. *)
Lemma message_reply_text_run update txt ud tr tg api :
  message_reply_text update txt (HState ud tr tg api) =
  match update_message update with
  | None => (Raised (no_attribute "reply_text"), HState ud tr tg api)
  | Some _ =>
      match next_fault tg with
      | Some e => (Raised e, HState ud (tr ++ [Reply txt false]) (tail tg) api)
      | None => (Ok tt, HState ud (tr ++ [Reply txt true]) (tail tg) api)
      end
  end.
Proof. destruct update as [eu chat [m|] c]; reflexivity. Qed.

Lemma message_reply_text_bind {B} (k : unit → M B) update txt ud tr tg api :
  (message_reply_text update txt ≫= k) (HState ud tr tg api) =
  match update_message update with
  | None => (Raised (no_attribute "reply_text"), HState ud tr tg api)
  | Some _ =>
      match next_fault tg with
      | Some e => (Raised e, HState ud (tr ++ [Reply txt false]) (tail tg) api)
      | None => k tt (HState ud (tr ++ [Reply txt true]) (tail tg) api)
      end
  end.
Proof.
  destruct update as [eu chat [m|] c]; [|reflexivity].
  rewrite message_reply_text_some. apply transport_call_bind.
Qed.

(** One run of [clear_history], in closed form. *)
Lemma clear_history_run update w ud :
  run_handler (clear_history update) w ud =
  match effective_user update with
  | None =>
      (Raised (no_attribute "id"), HState ud [] (transport w) (backend w))
  | Some u =>
      let ud' := cleared (id u) ud in
      match update_message update with
      | None =>
          (Raised (no_attribute "reply_text"),
           HState ud' [] (transport w) (backend w))
      | Some _ =>
          match next_fault (transport w) with
          | Some e =>
              (Raised e, HState ud' [Reply CLEARED_TEXT false]
                                (tail (transport w)) (backend w))
          | None =>
              (Ok tt, HState ud' [Reply CLEARED_TEXT true;
                                  Log INFO (HistoryCleared (id u))]
                             (tail (transport w)) (backend w))
          end
      end
  end.
Proof.
  destruct w as [api tg]. destruct update as [[u|] chat m c]; [|reflexivity].
  unfold run_handler, clear_history, cleared; simpl.
  rewrite ret_bind, get_user_data_bind. unfold logger_info.
  destruct (has_int_key (id u) ud).
  - rewrite set_int_item_bind, message_reply_text_bind; simpl.
    destruct m; [|done]. by destruct (next_fault tg).
  - rewrite pass_bind, message_reply_text_bind; simpl.
    destruct m; [|done]. by destruct (next_fault tg).
Qed.

Lemma str_items_cleared uid ud : str_items (cleared uid ud) = str_items ud.
Proof. unfold cleared. by destruct (has_int_key uid ud). Qed.

(** [/clear] changes nothing under a string key. *)
Lemma clear_history_str_items update w ud :
  str_items (data (run_handler (clear_history update) w ud).2) = str_items ud.
Proof.
  rewrite clear_history_run.
  destruct (effective_user update) as [u|]; [|done].
  destruct (update_message update); [|apply str_items_cleared].
  destruct (next_fault (transport w)); apply str_items_cleared.
Qed.

(** One run of [start], in closed form; [txt] is the welcome message. *)
Lemma start_run update w ud :
  ∃ txt, run_handler (start update) w ud =
  match effective_user update with
  | None =>
      (Raised (no_attribute "id"), HState ud [] (transport w) (backend w))
  | Some u =>
      let t0 := [Log INFO (NewUserStarted (id u) (username u))] in
      match update_message update with
      | None =>
          (Raised (no_attribute "reply_text"),
           HState ud t0 (transport w) (backend w))
      | Some _ =>
          match next_fault (transport w) with
          | Some e =>
              (Raised e, HState ud (t0 ++ [Reply txt false])
                                (tail (transport w)) (backend w))
          | None =>
              (Ok tt, HState ud (t0 ++ [Reply txt true])
                             (tail (transport w)) (backend w))
          end
      end
  end.
Proof.
  destruct update as [[u|] chat m c]; [|by exists EmptyString].
  eexists. unfold run_handler, start; simpl.
  rewrite ret_bind. unfold logger_info.
  rewrite emit_bind, message_reply_text_run. reflexivity.
Qed.

Lemma handle_message_history cfg update w ud :
  history (data (run_handler (handle_message cfg update) w ud).2) =
  match incoming update, next_fault (transport w) with
  | Some (_, t), None =>
      next_history (history ud) t (completion_text (backend w))
  | _, _ => history ud
  end.
Proof.
  rewrite handle_message_run. unfold handle_message_summary, incoming.
  destruct (effective_user update) as [u|]; [|done].
  destruct (update_message update) as [m|]; [|done].
  unfold turn_summary.
  destruct (next_fault (transport w)); [done|].
  destruct (next_fault (tail (transport w)));
    [destruct (next_fault (tail (tail (transport w))))|];
    simpl; by rewrite history_store_messages.
Qed.

Lemma handle_message_int_items cfg update w ud :
  int_items (data (run_handler (handle_message cfg update) w ud).2) =
  int_items ud.
Proof.
  rewrite handle_message_run. unfold handle_message_summary.
  destruct (effective_user update) as [u|]; [|done].
  destruct (update_message update) as [m|]; [|done].
  unfold turn_summary.
  destruct (next_fault (transport w)); [done|].
  destruct (next_fault (tail (transport w))); [|done].
  by destruct (next_fault (tail (tail (transport w)))).
Qed.

(** The error handler only logs: the dictionary is the one the handler
    left, and nothing is raised any further. *)
Lemma process_update_data cfg update w ud :
  data (run_handler (process_update cfg update) w ud).2 =
  data (run_handler (dispatch cfg update) w ud).2.
Proof.
  unfold run_handler, process_update, try_except.
  destruct (dispatch cfg update _) as [[[]|e] [ud' tr' tg' api']]; reflexivity.
Qed.

Lemma process_update_returns cfg update w ud :
  (run_handler (process_update cfg update) w ud).1 = Ok tt.
Proof.
  unfold run_handler, process_update, try_except.
  destruct (dispatch cfg update _) as [[[]|e] [ud' tr' tg' api']]; reflexivity.
Qed.

(** ** Reading traces *)

Lemma replies_app t1 t2 : replies (t1 ++ t2) = replies t1 ++ replies t2.
Proof. apply omap_app. Qed.

Lemma shown_app t1 t2 : shown (t1 ++ t2) = shown t1 ++ shown t2.
Proof. apply omap_app. Qed.

Lemma requests_app t1 t2 : requests (t1 ++ t2) = requests t1 ++ requests t2.
Proof. apply omap_app. Qed.

Lemma replies_api_log o : replies (api_log o) = [].
Proof. by destruct o as [[|c cs]|[[] d]]. Qed.

Lemma requests_api_log o : requests (api_log o) = [].
Proof. by destruct o as [[|c cs]|[[] d]]. Qed.

(** What a command does, whichever it is: it never calls the endpoint; it
    attempts one reply if it is one of the four registered commands, in
    whatever case it was typed, and the update has what the handler reads,
    and none otherwise; only [/clear] can touch the dictionary. *)
Lemma dispatch_command cfg update w ud c :
  command update = Some c →
  let r := run_handler (dispatch cfg update) w ud in
  requests (trace r.2) = [] ∧
  (∃ txt, replies (trace r.2) =
          if bool_decide (lower c ∈ ["start"; "help"; "about"; "clear"])
             && reaches_reply (lower c) update
          then [(txt, delivered (transport w))] else []) ∧
  data r.2 =
    match effective_user update with
    | Some u =>
        if bool_decide (lower c = "clear") then cleared (id u) ud else ud
    | None => ud
    end.
Proof.
  intros Hc r. unfold r, dispatch, delivered, reaches_reply. rewrite Hc.
  cbn zeta. generalize (lower c) as lc. clear r Hc c. intros c.
  destruct (decide (c = "start")) as [->|Hs].
  { rewrite !bool_decide_eq_true_2 by (first [done|repeat constructor]).
    destruct (start_run update w ud) as [txt ->].
    destruct update as [[u|] chat [m|] c']; simpl;
      (split_and!; [|exists txt|]); try done;
      by destruct (next_fault (transport w)). }
  rewrite (bool_decide_eq_false_2 (c = "start")) by done.
  destruct (decide (c = "help")) as [->|Hh].
  { rewrite !bool_decide_eq_true_2 by (first [done|repeat constructor]).
    unfold help_command, run_handler. rewrite message_reply_text_run.
    destruct update as [[u|] chat [m|] c']; simpl;
      (split_and!;
       [|first [by exists EmptyString
               |eexists; by destruct (next_fault (transport w))]|]);
      try done; by destruct (next_fault (transport w)). }
  rewrite (bool_decide_eq_false_2 (c = "help")) by done.
  destruct (decide (c = "about")) as [->|Ha].
  { rewrite !bool_decide_eq_true_2 by (first [done|repeat constructor]).
    unfold about, run_handler. rewrite message_reply_text_run.
    destruct update as [[u|] chat [m|] c']; simpl;
      (split_and!;
       [|first [by exists EmptyString
               |eexists; by destruct (next_fault (transport w))]|]);
      try done; by destruct (next_fault (transport w)). }
  rewrite (bool_decide_eq_false_2 (c = "about")) by done.
  destruct (decide (c = "clear")) as [->|Hcl].
  { rewrite !bool_decide_eq_true_2 by (first [done|repeat constructor]).
    rewrite clear_history_run.
    destruct update as [[u|] chat [m|] c']; simpl;
      (split_and!; [|exists CLEARED_TEXT|]); try done;
      by destruct (next_fault (transport w)). }
  rewrite (bool_decide_eq_false_2 (c = "clear")) by done.
  assert (Hnot : c ∉ ["start"; "help"; "about"; "clear"]).
  { intros Hin. repeat (apply elem_of_cons in Hin as [?|Hin]; [done|]).
    by apply elem_of_nil in Hin. }
  rewrite bool_decide_eq_false_2 by done.
  split_and!; [done|by exists EmptyString|by destruct (effective_user update)].
Qed.

Lemma dispatch_command_str_items cfg update w ud c :
  command update = Some c →
  str_items (data (run_handler (dispatch cfg update) w ud).2) = str_items ud.
Proof.
  intros Hc. destruct (dispatch_command cfg update w ud c Hc) as (_ & _ & ->).
  destruct (effective_user update); [|done].
  case_bool_decide; [apply str_items_cleared|done].
Qed.

(** The history of the sender after one update. *)
Lemma process_update_history cfg update w ud :
  history (data (run_handler (process_update cfg update) w ud).2) =
  match command update, incoming update, next_fault (transport w) with
  | None, Some (_, t), None =>
      next_history (history ud) t (completion_text (backend w))
  | _, _, _ => history ud
  end.
Proof.
  rewrite process_update_data.
  destruct (command update) as [c|] eqn:Hc.
  - unfold history. by erewrite dispatch_command_str_items.
  - unfold dispatch. rewrite Hc. apply handle_message_history.
Qed.

Lemma user_data_of_insert (st : store) uid ud v :
  user_data_of (<[uid := ud]> st) v =
  if decide (uid = v) then ud else user_data_of st v.
Proof.
  unfold user_data_of. rewrite lookup_insert.
  by destruct (decide (uid = v)).
Qed.

Lemma incoming_user update u t :
  incoming update = Some (u, t) → effective_user update = Some u.
Proof.
  unfold incoming. destruct (effective_user update); [|done].
  destruct (update_message update); [|done]. by intros [= -> _].
Qed.

Lemma deliver_history cfg (st : store) uw v :
  history_of (deliver cfg st uw).1 v =
  match command uw.1, incoming uw.1, next_fault (transport uw.2) with
  | None, Some (u, t), None =>
      if decide (id u = v)
      then next_history (history_of st v) t (completion_text (backend uw.2))
      else history_of st v
  | _, _, _ => history_of st v
  end.
Proof.
  unfold history_of, deliver.
  destruct (effective_user uw.1) as [u|] eqn:Hu; simpl.
  - rewrite user_data_of_insert. destruct (decide (id u = v)) as [<-|Hne].
    + rewrite process_update_history.
      destruct (command uw.1); [done|].
      destruct (incoming uw.1) as [[u' t]|] eqn:Hin; [|done].
      apply incoming_user in Hin. rewrite Hu in Hin. injection Hin as <-.
      by rewrite decide_True.
    + destruct (command uw.1); [done|].
      destruct (incoming uw.1) as [[u' t]|] eqn:Hin; [|done].
      apply incoming_user in Hin. rewrite Hu in Hin. injection Hin as <-.
      destruct (next_fault _); [done|]. by rewrite decide_False.
  - destruct (command uw.1); [done|].
    destruct (incoming uw.1) as [[u' t]|] eqn:Hin; [|done].
    apply incoming_user in Hin. by rewrite Hu in Hin.
Qed.

(** An update changes no dictionary but its sender's. *)
Lemma deliver_other cfg (st : store) uw v :
  id <$> effective_user uw.1 ≠ Some v → (deliver cfg st uw).1 !! v = st !! v.
Proof.
  intros Hne. unfold deliver.
  destruct (effective_user uw.1) as [u|]; simpl; [|done].
  rewrite lookup_insert_ne; [done|]. intros Heq. apply Hne. simpl. by f_equal.
Qed.

Lemma run_snoc cfg ups uw st :
  run cfg (ups ++ [uw]) st = (deliver cfg (run cfg ups st) uw).1.
Proof. unfold run. by rewrite foldl_app. Qed.

Lemma run_cons cfg ups uw st :
  run cfg (uw :: ups) st = run cfg ups (deliver cfg st uw).1.
Proof. reflexivity. Qed.

(** ** Slices and pairs *)

Section LastN.
Context {A : Type}.
Implicit Types l k : list A.

Lemma length_last_n n l : length (last_n n l) = n `min` length l.
Proof. unfold last_n. rewrite length_drop. lia. Qed.

Lemma last_n_all n l : length l ≤ n → last_n n l = l.
Proof.
  intros Hle. unfold last_n. by replace (length l - n) with 0 by lia.
Qed.

(** The guarded slice of [handle_message] is the plain slice. *)
Lemma guarded_last_n n l :
  (if bool_decide (n < length l) then last_n n l else l) = last_n n l.
Proof. case_bool_decide; [done|]. rewrite last_n_all; [done|lia]. Qed.

Lemma last_n_app_last_n n l k : last_n n (last_n n l ++ k) = last_n n (l ++ k).
Proof.
  unfold last_n. set (d := length l - n).
  rewrite <- (drop_app_le l k d) by lia.
  rewrite drop_drop. f_equal.
  rewrite length_drop, !length_app. lia.
Qed.
End LastN.

Lemma length_turns xs : length (turns xs) = 2 * length xs.
Proof. induction xs as [|[u r] xs IH]; simpl; lia. Qed.

Lemma turns_app xs ys : turns (xs ++ ys) = turns xs ++ turns ys.
Proof. induction xs as [|[u r] xs IH]; simpl; by rewrite ?IH. Qed.

Lemma drop_turns k xs : drop (2 * k) (turns xs) = turns (drop k xs).
Proof.
  revert xs. induction k as [|k IH]; intros [|[u r] xs]; try done.
  replace (2 * S k) with (S (S (2 * k))) by lia. simpl. apply IH.
Qed.

Lemma last_n_turns k xs : last_n (2 * k) (turns xs) = turns (last_n k xs).
Proof.
  unfold last_n. rewrite length_turns, <- drop_turns. f_equal. lia.
Qed.

(** ** How the history moves *)

Lemma next_history_falsy h u resp :
  truthy resp = false → next_history h u resp = h.
Proof. intros Hf. unfold next_history. by rewrite Hf. Qed.

Lemma next_history_truthy h u resp :
  truthy resp = true →
  next_history h u resp =
  last_n 40 (h ++ turns [(u, default EmptyString resp)]).
Proof.
  intros Ht. unfold next_history. rewrite Ht; simpl.
  rewrite guarded_last_n. by rewrite <- app_assoc.
Qed.

Lemma failed_completion_text o : failed o = true ↔ completion_text o = None.
Proof. destruct o as [[|c cs]|e]; simpl; split; done. Qed.

Lemma even_next_history h u resp :
  Nat.Even (length h) → Nat.Even (length (next_history h u resp)).
Proof.
  intros [m Hm]. destruct (truthy resp) eqn:Ht.
  - rewrite next_history_truthy, length_last_n, length_app, length_turns
      by done.
    cbn [length].
    destruct (decide (m < 19)).
    + exists (m + 1). lia.
    + exists 20. lia.
  - rewrite next_history_falsy by done. by exists m.
Qed.

Lemma deliver_agree cfg (st1 st2 : store) uw v :
  st1 !! v = st2 !! v →
  (deliver cfg st1 uw).1 !! v = (deliver cfg st2 uw).1 !! v.
Proof.
  intros Hv. unfold deliver.
  destruct (effective_user uw.1) as [u|]; simpl; [|done].
  destruct (decide (id u = v)) as [->|Hne].
  - rewrite !lookup_insert_eq. unfold user_data_of. by rewrite Hv.
  - by rewrite !lookup_insert_ne.
Qed.

Lemma run_agree cfg ups (st1 st2 : store) v :
  st1 !! v = st2 !! v → run cfg ups st1 !! v = run cfg ups st2 !! v.
Proof.
  revert st1 st2. induction ups as [|uw ups IH]; intros st1 st2 Hv; [done|].
  rewrite !run_cons. apply IH. by apply deliver_agree.
Qed.

Lemma is_exchange_incoming uid uw :
  is_exchange uid uw = true →
  command uw.1 = None ∧ successful uw.2 = true ∧
  ∃ u, id u = uid ∧ incoming uw.1 = Some (u, (exchange_of uw).1).
Proof.
  unfold is_exchange, incoming, exchange_of. intros H.
  apply andb_prop in H as [H Hok]. apply andb_prop in H as [H Hcmd].
  apply andb_prop in H as [Hid Hm].
  apply bool_decide_eq_true in Hid, Hcmd, Hm.
  split; [done|]. split; [done|].
  destruct (effective_user uw.1) as [u|]; [|done].
  destruct Hm as [m ->]. injection Hid as Hid. by exists u.
Qed.

Lemma run_exchanges cfg uid ups st :
  history_of st uid = [] →
  forallb (is_exchange uid) ups = true →
  history_of (run cfg ups st) uid = last_n 40 (turns (map exchange_of ups)).
Proof.
  intros Hst. induction ups as [|uw ups IH] using rev_ind; intros Hall.
  - unfold run; simpl. by rewrite Hst.
  - rewrite forallb_app in Hall. apply andb_prop in Hall as [Hups Huw].
    simpl in Huw. rewrite andb_true_r in Huw.
    apply is_exchange_incoming in Huw as (Hcmd & Hok & u & Hid & Hin).
    unfold successful in Hok.
    rewrite run_snoc, deliver_history, Hcmd, Hin.
    destruct (next_fault (transport uw.2)); [done|].
    rewrite decide_True by done.
    rewrite next_history_truthy by done.
    rewrite (IH Hups), last_n_app_last_n, map_app, turns_app.
    reflexivity.
Qed.

(** ** One run of [handle_message], part by part *)

Lemma call_openai_api_none cfg msgs ud tr tg o :
  failed o = true ↔
  (call_openai_api cfg msgs (HState ud tr tg o)).1 = Ok None.
Proof.
  rewrite call_openai_api_run, failed_completion_text; simpl.
  split; [by intros ->|congruence].
Qed.

(** The replies of one run of [handle_message], and how the run ends. *)
Lemma handle_message_replies cfg update w ud :
  replies (trace (run_handler (handle_message cfg update) w ud).2) =
  match incoming update, next_fault (transport w) with
  | Some _, None =>
      let out := first_reply (completion_text (backend w)) in
      match next_fault (tail (transport w)) with
      | None => [(out, true)]
      | Some _ =>
          [(out, false);
           (SYSTEM_ERROR_TEXT, delivered (tail (tail (transport w))))]
      end
  | _, _ => []
  end.
Proof.
  rewrite handle_message_run.
  unfold handle_message_summary, incoming, delivered.
  destruct (effective_user update) as [u|]; [|done].
  destruct (update_message update) as [m|]; [|done].
  unfold turn_summary.
  destruct (next_fault (transport w)); [done|].
  destruct (next_fault (tail (transport w)));
    [destruct (next_fault (tail (tail (transport w))))|];
    cbn [snd trace]; rewrite !replies_app, replies_api_log; simpl;
    try done.
  by destruct (truthy _).
Qed.

Lemma handle_message_result cfg update w ud :
  (run_handler (handle_message cfg update) w ud).1 =
  match effective_user update, update_message update with
  | None, _ => Raised (no_attribute "id")
  | Some _, None => Raised (no_attribute "text")
  | Some _, Some _ =>
      match next_fault (transport w) with
      | Some e => Raised e
      | None =>
          match next_fault (tail (transport w)) with
          | None => Ok tt
          | Some _ =>
              match next_fault (tail (tail (transport w))) with
              | None => Ok tt
              | Some e2 => Raised e2
              end
          end
      end
  end.
Proof.
  rewrite handle_message_run. unfold handle_message_summary.
  destruct (effective_user update) as [u|]; [|done].
  destruct (update_message update) as [m|]; [|done].
  unfold turn_summary.
  destruct (next_fault (transport w)); [done|].
  destruct (next_fault (tail (transport w))); [|done].
  by destruct (next_fault (tail (tail (transport w)))).
Qed.

Lemma handle_message_requests cfg update w ud :
  requests (trace (run_handler (handle_message cfg update) w ud).2) =
  match incoming update, next_fault (transport w) with
  | Some (_, t), None =>
      [Request (OPENAI_MODEL cfg)
         ([Message "system" (SYSTEM_INSTRUCTIONS cfg)]
            ++ history ud ++ [Message "user" t])
         0.7%Q 2048]
  | _, _ => []
  end.
Proof.
  rewrite handle_message_run. unfold handle_message_summary, incoming.
  destruct (effective_user update) as [u|]; [|done].
  destruct (update_message update) as [m|]; [|done].
  unfold turn_summary.
  destruct (next_fault (transport w)); [done|].
  destruct (next_fault (tail (transport w)));
    [destruct (next_fault (tail (tail (transport w))))|];
    cbn [snd trace]; rewrite !requests_app, requests_api_log; simpl;
    try done.
  by destruct (truthy _).
Qed.

Lemma handle_message_data cfg update w ud :
  data (run_handler (handle_message cfg update) w ud).2 =
  match incoming update, next_fault (transport w) with
  | Some (_, t), None =>
      store_messages
        (next_history (history ud) t (completion_text (backend w))) ud
  | _, _ => ud
  end.
Proof.
  rewrite handle_message_run. unfold handle_message_summary, incoming.
  destruct (effective_user update) as [u|]; [|done].
  destruct (update_message update) as [m|]; [|done].
  unfold turn_summary.
  destruct (next_fault (transport w)); [done|].
  destruct (next_fault (tail (transport w))); [|done].
  by destruct (next_fault (tail (tail (transport w)))).
Qed.

Lemma clear_history_history update w ud :
  history (data (run_handler (clear_history update) w ud).2) = history ud.
Proof. unfold history. by rewrite clear_history_str_items. Qed.

Lemma even_deliver cfg (st : store) uw :
  (∀ v, Nat.Even (length (history_of st v))) →
  ∀ v, Nat.Even (length (history_of (deliver cfg st uw).1 v)).
Proof.
  intros Hst v. rewrite deliver_history.
  destruct (command uw.1); [done|].
  destruct (incoming uw.1) as [[u t]|]; [|done].
  destruct (next_fault _); [done|].
  destruct (decide _); [|done].
  by apply even_next_history.
Qed.

Lemma even_run cfg ups (st : store) :
  (∀ v, Nat.Even (length (history_of st v))) →
  ∀ v, Nat.Even (length (history_of (run cfg ups st) v)).
Proof.
  revert st. induction ups as [|uw ups IH]; intros st Hst; [done|].
  rewrite run_cons. apply IH. by apply even_deliver.
Qed.

(** After any sequence of updates, the dictionary of a user is the one that
    user's own updates alone would have produced. *)
Lemma run_filter cfg ups (st : store) v :
  run cfg ups st !! v =
  run cfg (filter (λ uw, id <$> effective_user uw.1 = Some v) ups) st !! v.
Proof.
  revert st. induction ups as [|uw ups IH]; intros st; [done|].
  rewrite run_cons, filter_cons. case_decide as Hv.
  - rewrite run_cons. apply IH.
  - rewrite IH. apply run_agree. by apply deliver_other.
Qed.

(** ** Turns that overlap *)

Lemma lookup_user_data_of (st1 st2 : store) v :
  st1 !! v = st2 !! v → user_data_of st1 v = user_data_of st2 v.
Proof. unfold user_data_of. by intros ->. Qed.

Lemma store_messages_twice h1 h2 ud :
  store_messages h1 (store_messages h2 ud) = store_messages h1 ud.
Proof. unfold store_messages; simpl. by rewrite insert_insert_eq. Qed.

Lemma resume_user cfg k st : task_user (resume cfg k st).1 = task_user k.
Proof.
  unfold resume. destruct (stage_of k); simpl; try done;
    by destruct (next_fault _).
Qed.

(** A task writes the store at the key of its user only. *)
Lemma resume_other cfg k st v :
  v ≠ id (task_user k) → (resume cfg k st).2 !! v = st !! v.
Proof.
  intros Hv. unfold resume. destruct (stage_of k); simpl; try done.
  - destruct (next_fault _); simpl; [done|]. by rewrite lookup_insert_ne.
  - destruct (truthy _); [|done]. by rewrite lookup_insert_ne.
  - by destruct (next_fault _).
  - by destruct (next_fault _).
Qed.

(** What a task does depends on the store through the dictionary of its
    user only. *)
Lemma resume_agree cfg k (st1 st2 : store) :
  user_data_of st1 (id (task_user k)) = user_data_of st2 (id (task_user k)) →
  (resume cfg k st1).1 = (resume cfg k st2).1 ∧
  user_data_of (resume cfg k st1).2 (id (task_user k)) =
  user_data_of (resume cfg k st2).2 (id (task_user k)).
Proof.
  intros Hud. unfold resume. destruct (stage_of k); simpl; try done.
  - destruct (next_fault _); simpl; [done|].
    rewrite Hud, !user_data_of_insert, !decide_True by done. done.
  - rewrite Hud. destruct (truthy _); [|done].
    rewrite !user_data_of_insert, !decide_True by done. done.
  - by destruct (next_fault _).
  - by destruct (next_fault _).
Qed.

Lemma alone_user cfg n k st : task_user (alone cfg n k st).1 = task_user k.
Proof.
  revert k st. induction n as [|n IH]; intros k st; [done|].
  simpl. by rewrite IH, resume_user.
Qed.

Lemma alone_other cfg n k st v :
  v ≠ id (task_user k) → (alone cfg n k st).2 !! v = st !! v.
Proof.
  revert k st. induction n as [|n IH]; intros k st Hv; [done|].
  simpl. rewrite IH by (by rewrite resume_user). by apply resume_other.
Qed.

Lemma alone_agree cfg n k (st1 st2 : store) :
  user_data_of st1 (id (task_user k)) = user_data_of st2 (id (task_user k)) →
  (alone cfg n k st1).1 = (alone cfg n k st2).1 ∧
  user_data_of (alone cfg n k st1).2 (id (task_user k)) =
  user_data_of (alone cfg n k st2).2 (id (task_user k)).
Proof.
  revert k st1 st2. induction n as [|n IH]; intros k st1 st2 Hud; [done|].
  simpl. destruct (resume_agree cfg k st1 st2 Hud) as [Hk Hst].
  rewrite Hk. rewrite <- (resume_user cfg k st2). apply IH.
  rewrite <- Hk at 1. by rewrite !resume_user.
Qed.

Lemma alone_returned cfg n k st r :
  stage_of k = Returned r → alone cfg n k st = (k, st).
Proof.
  intros Hr. induction n as [|n IH]; [done|].
  simpl. unfold resume. by rewrite Hr.
Qed.

Lemma alone_add cfg n m k st :
  alone cfg (n + m) k st =
  alone cfg m (alone cfg n k st).1 (alone cfg n k st).2.
Proof.
  revert k st. induction n as [|n IH]; intros k st; [done|]. simpl. apply IH.
Qed.

Lemma alone_S cfg n k st :
  alone cfg (S n) k st = alone cfg n (resume cfg k st).1 (resume cfg k st).2.
Proof. reflexivity. Qed.

(** One resumption, stage by stage. *)
Lemma resume_called cfg u chat t w tr st :
  resume cfg (Task u chat t w Called tr) st =
  (Task u chat t w AwaitTyping (tr ++ [Log INFO (MessageFrom (id u) t)]), st).
Proof. reflexivity. Qed.

Lemma resume_typing cfg u chat t api tg tr (st : store) :
  resume cfg (Task u chat t (World api tg) AwaitTyping tr) st =
  match next_fault tg with
  | Some e =>
      (Task u chat t (World api (tail tg)) (Returned (Raised e))
            (tr ++ [ChatAction chat false]), st)
  | None =>
      let ud := user_data_of st (id u) in
      (Task u chat t (World api (tail tg)) AwaitCompletion
            (tr ++ [ChatAction chat true;
                    ChatCompletionCreate
                      (Request (OPENAI_MODEL cfg)
                         ([Message "system" (SYSTEM_INSTRUCTIONS cfg)]
                            ++ history ud ++ [Message "user" t])
                         0.7%Q 2048)]),
       <[id u := store_messages (history ud) ud]> st)
  end.
Proof. unfold resume; simpl. by destruct (next_fault tg). Qed.

Lemma resume_completion cfg u chat t api tg tr (st : store) :
  resume cfg (Task u chat t (World api tg) AwaitCompletion tr) st =
  let resp := completion_text api in
  let ud := user_data_of st (id u) in
  (Task u chat t (World api tg) (AwaitReply (first_reply resp) (truthy resp))
        (tr ++ api_log api),
   if truthy resp
   then <[id u := store_messages (next_history (history ud) t resp) ud]> st
   else st).
Proof. reflexivity. Qed.

Lemma resume_reply cfg u chat t api tg tr out answered (st : store) :
  resume cfg (Task u chat t (World api tg) (AwaitReply out answered) tr) st =
  match next_fault tg with
  | None =>
      (Task u chat t (World api (tail tg)) (Returned (Ok tt))
            (tr ++ Reply out true
                :: (if answered then [Log INFO (ResponseSent (id u))]
                    else [])), st)
  | Some e =>
      (Task u chat t (World api (tail tg)) AwaitSystemError
            (tr ++ [Reply out false;
                    Log ERROR (ErrorProcessing (id u) (str e))]), st)
  end.
Proof. unfold resume; simpl. by destruct (next_fault tg). Qed.

Lemma resume_system_error cfg u chat t api tg tr (st : store) :
  resume cfg (Task u chat t (World api tg) AwaitSystemError tr) st =
  match next_fault tg with
  | None =>
      (Task u chat t (World api (tail tg)) (Returned (Ok tt))
            (tr ++ [Reply SYSTEM_ERROR_TEXT true]), st)
  | Some e =>
      (Task u chat t (World api (tail tg)) (Returned (Raised e))
            (tr ++ [Reply SYSTEM_ERROR_TEXT false]), st)
  end.
Proof. unfold resume; simpl. by destruct (next_fault tg). Qed.

(** A task that is resumed five times with nothing in between has returned,
    and has done what one run of [handle_message] does. *)
Lemma alone_five cfg u chat t w st :
  let a := alone cfg 5 (start_task u chat t w) st in
  let r := turn_summary cfg u chat t w (user_data_of st (id u)) in
  stage_of a.1 = Returned r.1 ∧ task_trace a.1 = trace r.2 ∧
  user_data_of a.2 (id u) = data r.2.
Proof.
  destruct w as [api tg]. cbv zeta. unfold turn_summary, start_task.
  cbn [transport backend].
  rewrite alone_S, resume_called. cbn [fst snd].
  rewrite alone_S, resume_typing.
  destruct (next_fault tg) as [e|]; cbn [fst snd].
  { by rewrite (alone_returned _ _ _ _ (Raised e)). }
  rewrite alone_S, resume_completion. cbv zeta. cbn [fst snd].
  rewrite user_data_of_insert, decide_True, history_store_messages by done.
  set (ud := user_data_of st (id u)).
  set (resp := completion_text api).
  set (st' := if truthy resp then _ else _).
  assert (Hst : user_data_of st' (id u) =
                store_messages (next_history (history ud) t resp) ud).
  { unfold st'. destruct (truthy resp) eqn:Ht.
    - by rewrite user_data_of_insert, decide_True, store_messages_twice.
    - rewrite user_data_of_insert, decide_True by done.
      unfold next_history. by rewrite Ht. }
  clearbody st'.
  rewrite alone_S, resume_reply.
  destruct (next_fault (tail tg)) as [e1|]; cbn [fst snd].
  - rewrite alone_S, resume_system_error.
    destruct (next_fault (tail (tail tg))) as [e2|]; cbn [fst snd alone
      stage_of task_trace data trace];
      (split; [done|]); (split; [|done]);
      rewrite <- ?app_assoc; reflexivity.
  - rewrite (alone_returned _ _ _ _ (Ok tt)) by done.
    cbn [fst snd stage_of task_trace data trace].
    split; [done|]. split; [|done].
    rewrite <- ?app_assoc. reflexivity.
Qed.

Lemma alone_turn cfg n u chat t w st :
  5 ≤ n →
  let a := alone cfg n (start_task u chat t w) st in
  let r := turn_summary cfg u chat t w (user_data_of st (id u)) in
  stage_of a.1 = Returned r.1 ∧ task_trace a.1 = trace r.2 ∧
  user_data_of a.2 (id u) = data r.2.
Proof.
  intros Hn. cbv zeta.
  pose proof (alone_five cfg u chat t w st) as H5. cbv zeta in H5.
  replace n with (5 + (n - 5)) by lia. rewrite alone_add.
  set (a := alone cfg 5 (start_task u chat t w) st) in *.
  set (r := turn_summary cfg u chat t w (user_data_of st (id u))) in *.
  clearbody a r. destruct a as [k5 st5]. cbn [fst snd] in *.
  destruct H5 as (Hs & Htr & Hud).
  rewrite (alone_returned _ _ _ _ _ Hs). cbn [fst snd].
  split_and!; assumption.
Qed.

Lemma slots_same b sched : slots b (b :: sched) = S (slots b sched).
Proof. unfold slots. by rewrite filter_cons_True. Qed.

Lemma slots_other b x sched : x ≠ b → slots b (x :: sched) = slots b sched.
Proof. intros Hx. unfold slots. by rewrite filter_cons_False. Qed.

(** Two tasks of different users, resumed in any order: each has gone as far
    as if it had run alone, on a dictionary that is the one it would have
    alone, and nobody else's dictionary has changed. *)
Lemma interleave_alone cfg sched k1 k2 (st : store) :
  id (task_user k1) ≠ id (task_user k2) →
  let c := interleave cfg sched (st, (k1, k2)) in
  let a1 := alone cfg (slots true sched) k1 st in
  let a2 := alone cfg (slots false sched) k2 st in
  (c.2.1 = a1.1 ∧
   user_data_of c.1 (id (task_user k1)) =
   user_data_of a1.2 (id (task_user k1))) ∧
  (c.2.2 = a2.1 ∧
   user_data_of c.1 (id (task_user k2)) =
   user_data_of a2.2 (id (task_user k2))) ∧
  ∀ v, v ≠ id (task_user k1) → v ≠ id (task_user k2) → c.1 !! v = st !! v.
Proof.
  revert k1 k2 st.
  induction sched as [|b sched IH]; intros k1 k2 st Hne; [done|].
  cbv zeta. destruct b.
  - rewrite slots_same, slots_other by done.
    change (interleave cfg (true :: sched) (st, (k1, k2)))
      with (interleave cfg sched
              ((resume cfg k1 st).2, ((resume cfg k1 st).1, k2))).
    change (alone cfg (S (slots true sched)) k1 st)
      with (alone cfg (slots true sched)
              (resume cfg k1 st).1 (resume cfg k1 st).2).
    assert (Hne' : id (task_user (resume cfg k1 st).1) ≠ id (task_user k2))
      by (by rewrite resume_user).
    destruct (IH _ _ (resume cfg k1 st).2 Hne') as ((H1 & H1') & (H2 & H2') & H3).
    rewrite resume_user in H1', H3.
    assert (Hsame : user_data_of (resume cfg k1 st).2 (id (task_user k2)) =
                    user_data_of st (id (task_user k2))).
    { apply lookup_user_data_of, resume_other. congruence. }
    destruct (alone_agree cfg (slots false sched) k2 _ _ Hsame) as [Ha Ha'].
    split_and!; [done|done|congruence|congruence|].
    intros v Hv1 Hv2. rewrite H3 by done. by apply resume_other.
  - rewrite slots_same, slots_other by done.
    change (interleave cfg (false :: sched) (st, (k1, k2)))
      with (interleave cfg sched
              ((resume cfg k2 st).2, (k1, (resume cfg k2 st).1))).
    change (alone cfg (S (slots false sched)) k2 st)
      with (alone cfg (slots false sched)
              (resume cfg k2 st).1 (resume cfg k2 st).2).
    assert (Hne' : id (task_user k1) ≠ id (task_user (resume cfg k2 st).1))
      by (by rewrite resume_user).
    destruct (IH _ _ (resume cfg k2 st).2 Hne') as ((H1 & H1') & (H2 & H2') & H3).
    rewrite resume_user in H2', H3.
    assert (Hsame : user_data_of (resume cfg k2 st).2 (id (task_user k1)) =
                    user_data_of st (id (task_user k1))).
    { apply lookup_user_data_of, resume_other. congruence. }
    destruct (alone_agree cfg (slots true sched) k1 _ _ Hsame) as [Ha Ha'].
    split_and!; [congruence|congruence|done|done|].
    intros v Hv1 Hv2. rewrite H3 by done. by apply resume_other.
Qed.

(** * The claims *)

(** C1. The clear operation is meant to leave the user's stored history
    empty. On the code it does not: [clear_history] tests and assigns the
    integer key [user_id] of the user's dictionary, while the history lives
    under the string key ['messages']. Here alice has one exchange stored and
    sends [/clear]: she is told the history was cleared, and both messages
    are still stored and are replayed to the endpoint with her next
    message. *)
Theorem clear_history_keeps_messages :
  let st := run cfg0 [(says alice "hi", answers "OK")] ∅ in
  let cleared := deliver cfg0 st (slash alice "clear", answers "unused") in
  let next := deliver cfg0 cleared.1 (says alice "again", answers "OK") in
  history_of st 1 = [Message "user" "hi"; Message "assistant" "OK"] ∧
  shown cleared.2 = [CLEARED_TEXT] ∧
  history_of cleared.1 1 = [Message "user" "hi"; Message "assistant" "OK"] ∧
  length (history_of cleared.1 1) = 2 ∧
  map messages (requests next.2) =
    [[Message "system" "INSTRUCTIONS"; Message "user" "hi";
      Message "assistant" "OK"; Message "user" "again"]].
Proof. vm_compute. done. Qed.

(** C2. When the backend call fails (the endpoint raises, or returns no
    choice, so that [call_openai_api] returns [None]), the history stored for
    the user after [handle_message] is the history stored before it, in
    length and content, whatever the update and whatever the transport does;
    every other entry of the user's dictionary is unchanged too. *)
Theorem failed_call_keeps_history cfg update w ud :
  failed (backend w) = true →
  let ud' := data (run_handler (handle_message cfg update) w ud).2 in
  history ud' = history ud ∧
  length (history ud') = length (history ud) ∧
  int_items ud' = int_items ud ∧
  ∀ k, k ≠ "messages" → str_items ud' !! k = str_items ud !! k.
Proof.
  intros Hf%failed_completion_text ud'.
  assert (Hh : history ud' = history ud).
  { unfold ud'. rewrite handle_message_history, Hf.
    destruct (incoming update) as [[u t]|]; [|done].
    by destruct (next_fault _). }
  split; [done|]. split; [by rewrite Hh|].
  split; [apply handle_message_int_items|].
  intros k Hk. unfold ud'. rewrite handle_message_data.
  destruct (incoming update) as [[u t]|]; [|done].
  destruct (next_fault _); [done|].
  simpl. by rewrite lookup_insert_ne.
Qed.

Lemma failed_call_keeps_history_witness :
  failed (backend unauthorized) = true ∧
  history (data (run_handler (handle_message cfg0 (says alice "again"))
                   unauthorized
                   (user_data_of
                      (run cfg0 [(says alice "hi", answers "OK")] ∅) 1)).2) =
  history (user_data_of (run cfg0 [(says alice "hi", answers "OK")] ∅) 1).
Proof.
  split; [reflexivity|].
  apply (failed_call_keeps_history cfg0 (says alice "again") unauthorized).
  reflexivity.
Defined.

(** C3. After [N] successful exchanges of one user, starting from an empty
    history, the stored history has length [min (2N) 40] and holds the
    (user, assistant) pairs of the most recent [min N 20] exchanges, in
    order, oldest first. *)
Theorem successful_exchanges_history cfg uid ups (st : store) :
  history_of st uid = [] →
  forallb (is_exchange uid) ups = true →
  let h := history_of (run cfg ups st) uid in
  let recent := last_n 20 (map exchange_of ups) in
  length h = (2 * length ups) `min` 40 ∧
  length recent = length ups `min` 20 ∧
  h = turns recent.
Proof.
  intros Hst Hall h recent.
  assert (Hh : h = turns recent).
  { unfold h, recent. rewrite (run_exchanges _ _ _ _ Hst Hall).
    apply (last_n_turns 20). }
  assert (Hr : length recent = length ups `min` 20).
  { unfold recent. rewrite length_last_n, length_map. lia. }
  split; [|done]. rewrite Hh, length_turns, Hr. lia.
Qed.

Lemma successful_exchanges_history_witness :
  history_of (∅ : store) 1 = [] ∧
  forallb (is_exchange 1) (map numbered (seq 0 25)) = true ∧
  length (history_of (run cfg0 (map numbered (seq 0 25)) ∅) 1) = 40 ∧
  history_of (run cfg0 (map numbered (seq 0 25)) ∅) 1 =
  turns (map exchange_of (map numbered (seq 5 20))).
Proof.
  split; [reflexivity|]. split; [reflexivity|].
  pose proof (successful_exchanges_history cfg0 1 (map numbered (seq 0 25)) ∅
                eq_refl eq_refl) as (Hlen & _ & Hh).
  split; [exact Hlen|exact Hh].
Defined.

(** C4. The request that [handle_message] assembles for the endpoint, from a
    stored history of length [L] and the text of the incoming message, is the
    system message with the fixed instructions, then the [L] stored messages
    in order, then one user message with the incoming text: [L + 2]
    messages. One such request is made once the typing indicator went
    through, and none otherwise. *)
Theorem request_assembly cfg u chat t c w ud :
  let msgs := [Message "system" (SYSTEM_INSTRUCTIONS cfg)]
                ++ history ud ++ [Message "user" t] in
  map messages
      (requests (trace (run_handler
                          (handle_message cfg (new_message u chat t c))
                          w ud).2)) =
    (if delivered (transport w) then [msgs] else []) ∧
  length msgs = length (history ud) + 2 ∧
  head msgs = Some (Message "system" (SYSTEM_INSTRUCTIONS cfg)) ∧
  last msgs = Some (Message "user" t).
Proof.
  intros msgs. rewrite handle_message_requests. unfold delivered.
  split; [simpl; by destruct (next_fault _)|].
  split; [unfold msgs; rewrite !length_app; simpl; lia|].
  split; [done|].
  unfold msgs. by rewrite app_assoc, last_snoc.
Qed.

(** C5. Whatever updates are handled from start-up on (free text with any
    behaviour of the endpoint and of the transport, commands, edited
    messages), every stored history has even length: an exchange adds a user
    message and an assistant message together, and the slice to 40 keeps an
    even number of them. *)
Theorem history_length_even cfg ups v :
  Nat.Even (length (history_of (run cfg ups ∅) v)).
Proof. apply even_run. intros u. by exists 0. Qed.

(** C6, as the code has it. Take a call of [handle_message] that gets to its
    [try] block: the update is a new message with a sender, and the typing
    indicator is delivered. The text it hands to the transport is the
    generated text verbatim when the endpoint returns a non-empty text, and
    the fixed "unable to process" message when the endpoint fails or returns
    the empty text. If sending it raises, the fault is caught and the fixed
    "system error" message is sent after it. No other text is sent, and the
    call returns normally unless sending the "system error" message raises as
    well. *)
Theorem handle_message_outcome cfg u chat t c w ud :
  delivered (transport w) = true →
  let r := run_handler (handle_message cfg (new_message u chat t c)) w ud in
  let tg := tail (transport w) in
  let out := match backend w with
             | Returns (String a s :: _) => String a s
             | _ => UNABLE_TEXT
             end in
  match next_fault tg with
  | None => replies (trace r.2) = [(out, true)] ∧ r.1 = Ok tt
  | Some _ =>
      match next_fault (tail tg) with
      | None =>
          replies (trace r.2) = [(out, false); (SYSTEM_ERROR_TEXT, true)]
          ∧ r.1 = Ok tt
      | Some e2 =>
          replies (trace r.2) = [(out, false); (SYSTEM_ERROR_TEXT, false)]
          ∧ r.1 = Raised e2
      end
  end.
Proof.
  intros Hd r tg out. unfold delivered in Hd.
  assert (Hout : first_reply (completion_text (backend w)) = out).
  { unfold out. by destruct (backend w) as [[|[|a s] cs]|e]. }
  unfold r. rewrite handle_message_replies, handle_message_result; simpl.
  rewrite Hout. unfold delivered, tg.
  destruct (next_fault (transport w)); [done|].
  destruct (next_fault (tail (transport w))); [|done].
  by destruct (next_fault (tail (tail (transport w)))).
Qed.

Lemma handle_message_outcome_witness :
  delivered (transport (answers "OK")) = true ∧
  replies (trace (run_handler (handle_message cfg0 (says alice "hi"))
                    (answers "OK") empty_user_data).2) = [("OK", true)] ∧
  (run_handler (handle_message cfg0 (says alice "hi"))
     (answers "OK") empty_user_data).1 = Ok tt.
Proof.
  split; [reflexivity|].
  exact (handle_message_outcome cfg0 alice 1 "hi" None (answers "OK")
           empty_user_data eq_refl).
Defined.

(** C6 as stated fails, in its first and in its last clause. First, the
    endpoint succeeds with the empty text and the transport delivers
    everything, yet the user is shown the "unable to process" message and not
    the generated text. Then, a fault does leave [handle_message]: when the
    reply and the "system error" message after it both raise, when the typing
    indicator raises, and when the update is an edited message, so that
    [update.message] is [None]; the user is shown nothing then. *)
Lemma stated_outcome_fails :
  (backend (answers EmptyString) = Returns [EmptyString] ∧
   transport (answers EmptyString) = [] ∧
   shown (trace (run_handler (handle_message cfg0 (says alice "hi"))
                   (answers EmptyString) empty_user_data).2) = [UNABLE_TEXT] ∧
   shown (trace (run_handler (handle_message cfg0 (says alice "hi"))
                   (answers EmptyString) empty_user_data).2) ≠ [EmptyString]) ∧
  (let r := run_handler (handle_message cfg0 (says alice "hi"))
              (replies_lost "OK") empty_user_data in
   r.1 = Raised (Exn TelegramError "Timed out") ∧ shown (trace r.2) = []) ∧
  (let r := run_handler (handle_message cfg0 (says alice "hi"))
              (typing_lost "OK") empty_user_data in
   r.1 = Raised (Exn TelegramError "Timed out") ∧ shown (trace r.2) = []) ∧
  (let r := run_handler (handle_message cfg0 (edited (says alice "hi")))
              (answers "OK") empty_user_data in
   r.1 = Raised (no_attribute "text") ∧ shown (trace r.2) = []).
Proof. vm_compute. repeat split; done. Qed.

(** C7. Every call of [call_openai_api] sends one request, with the
    configured model, the messages it was given, temperature 0.7 and
    max_tokens 2048; the function takes nothing but the messages. When the
    endpoint returns choices, the result is the text of the first one. *)
Theorem call_openai_api_request cfg msgs ud tr tg o c cs :
  requests (trace (call_openai_api cfg msgs (HState ud tr tg o)).2) =
    requests tr ++
    [{| model := OPENAI_MODEL cfg; messages := msgs;
        temperature := 0.7%Q; max_tokens := 2048 |}] ∧
  (call_openai_api cfg msgs (HState ud tr tg (Returns (c :: cs)))).1 =
    Ok (Some c).
Proof.
  rewrite !call_openai_api_run. split; [|done].
  cbn [snd trace]. rewrite requests_app; simpl.
  by rewrite requests_api_log.
Qed.

(** C8. Two configurations that differ only in the confidence threshold give
    the same run of [handle_message]: the same replies, the same stored
    dictionary, the same trace. The same holds for any sequence of
    updates. *)
Theorem threshold_never_consulted tok key mdl sys t1 t2 update w ud ups st :
  run_handler (handle_message (Config tok key mdl t1 sys) update) w ud =
  run_handler (handle_message (Config tok key mdl t2 sys) update) w ud ∧
  run (Config tok key mdl t1 sys) ups st =
  run (Config tok key mdl t2 sys) ups st.
Proof.
  split.
  - by rewrite !handle_message_run.
  - revert st. induction ups as [|uw ups IH]; intros st; [done|].
    rewrite !run_cons, IH. reflexivity.
Qed.

(** C9. Two users send a message each, and the two runs of [handle_message]
    overlap: they are resumed in any order, [await] by [await]. At every
    moment each run has got as far, and has made of its own user's
    dictionary what it would have, had it run alone, and the dictionary of
    every third user is as it was. Once a run has been resumed five times it
    has returned, and its user's dictionary, what it sent and how it ended
    are those of one call of [handle_message] on that user's old dictionary:
    nothing of the other user's turn is in them. In particular, when the
    endpoint fails for the second user, that user's history is unchanged,
    whatever the first user's turn stored. *)
Theorem concurrent_turns_independent cfg u1 chat1 t1 w1 u2 chat2 t2 w2
    (st : store) sched :
  id u1 ≠ id u2 →
  let k1 := start_task u1 chat1 t1 w1 in
  let k2 := start_task u2 chat2 t2 w2 in
  let c := interleave cfg sched (st, (k1, k2)) in
  let a1 := alone cfg (slots true sched) k1 st in
  let a2 := alone cfg (slots false sched) k2 st in
  let r1 := run_handler (handle_message cfg (new_message u1 chat1 t1 None))
              w1 (user_data_of st (id u1)) in
  let r2 := run_handler (handle_message cfg (new_message u2 chat2 t2 None))
              w2 (user_data_of st (id u2)) in
  (c.2.1 = a1.1 ∧ user_data_of c.1 (id u1) = user_data_of a1.2 (id u1)) ∧
  (c.2.2 = a2.1 ∧ user_data_of c.1 (id u2) = user_data_of a2.2 (id u2)) ∧
  (∀ v, v ≠ id u1 → v ≠ id u2 → c.1 !! v = st !! v) ∧
  (5 ≤ slots true sched →
   user_data_of c.1 (id u1) = data r1.2 ∧
   task_trace c.2.1 = trace r1.2 ∧ stage_of c.2.1 = Returned r1.1) ∧
  (5 ≤ slots false sched →
   user_data_of c.1 (id u2) = data r2.2 ∧
   task_trace c.2.2 = trace r2.2 ∧ stage_of c.2.2 = Returned r2.1) ∧
  (5 ≤ slots false sched → failed (backend w2) = true →
   history_of c.1 (id u2) = history_of st (id u2)).
Proof.
  intros Hne k1 k2 c a1 a2 r1 r2.
  destruct (interleave_alone cfg sched k1 k2 st Hne)
    as ((H1 & H1') & (H2 & H2') & H3).
  fold c a1 a2 in H1, H1', H2, H2', H3. simpl in H1', H2', H3.
  assert (Hr1 : 5 ≤ slots true sched →
    user_data_of c.1 (id u1) = data r1.2 ∧
    task_trace c.2.1 = trace r1.2 ∧ stage_of c.2.1 = Returned r1.1).
  { intros Hn.
    destruct (alone_turn cfg _ u1 chat1 t1 w1 st Hn) as (Hs & Htr & Hud).
    fold k1 a1 in Hs, Htr, Hud. unfold r1. rewrite turn_run.
    rewrite H1, H1'. done. }
  assert (Hr2 : 5 ≤ slots false sched →
    user_data_of c.1 (id u2) = data r2.2 ∧
    task_trace c.2.2 = trace r2.2 ∧ stage_of c.2.2 = Returned r2.1).
  { intros Hn.
    destruct (alone_turn cfg _ u2 chat2 t2 w2 st Hn) as (Hs & Htr & Hud).
    fold k2 a2 in Hs, Htr, Hud. unfold r2. rewrite turn_run.
    rewrite H2, H2'. done. }
  split_and!; try done.
  intros Hn Hf%failed_completion_text.
  destruct (Hr2 Hn) as (Hud & _). unfold history_of. rewrite Hud.
  unfold r2. rewrite handle_message_history, Hf; simpl.
  by destruct (next_fault _).
Qed.

Lemma concurrent_turns_independent_witness :
  id alice ≠ id bob ∧
  let c := interleave cfg0 [true; false; false; true; true; false; true;
                            false; false; true]
             (∅, (start_task alice 1 "hi" (answers "OK"),
                  start_task bob 2 "yo" (answers "Sure"))) in
  history_of c.1 (id alice) =
    [Message "user" "hi"; Message "assistant" "OK"] ∧
  history_of c.1 (id bob) =
    [Message "user" "yo"; Message "assistant" "Sure"].
Proof.
  assert (Hne : id alice ≠ id bob) by (simpl; lia).
  split; [exact Hne|].
  pose proof (concurrent_turns_independent cfg0 alice 1 "hi" (answers "OK")
                bob 2 "yo" (answers "Sure") ∅
                [true; false; false; true; true; false; true; false; false;
                 true] Hne) as (_ & _ & _ & H1 & H2 & _).
  cbv zeta. unfold history_of.
  rewrite (proj1 (H1 ltac:(vm_compute; lia))).
  rewrite (proj1 (H2 ltac:(vm_compute; lia))).
  split; reflexivity.
Defined.

(** C10. When the endpoint returns the empty text, [handle_message] does what
    it does when the endpoint raises: the same result, the same stored
    dictionary, the same replies. The stored history is unchanged, and the
    texts sent are the "unable to process" message (followed by the "system
    error" message if sending it raises), never the empty text. *)
Theorem empty_completion_is_failure cfg u chat t c tg ud cs e :
  let update := new_message u chat t c in
  let r1 := run_handler (handle_message cfg update)
              (World (Returns (EmptyString :: cs)) tg) ud in
  let r2 := run_handler (handle_message cfg update)
              (World (Raises e) tg) ud in
  r1.1 = r2.1 ∧ data r1.2 = data r2.2 ∧
  replies (trace r1.2) = replies (trace r2.2) ∧
  history (data r1.2) = history ud ∧
  map fst (replies (trace r1.2)) =
    match next_fault tg with
    | Some _ => []
    | None => UNABLE_TEXT ::
              (if delivered (tail tg) then [] else [SYSTEM_ERROR_TEXT])
    end.
Proof.
  intros update r1 r2. unfold r1, r2, update.
  rewrite !handle_message_result, !handle_message_history,
    !handle_message_data, !handle_message_replies.
  unfold delivered; simpl.
  repeat split; try done.
  - by destruct (next_fault tg).
  - destruct (next_fault tg); [done|]. by destruct (next_fault (tail tg)).
Qed.

(** * Further properties *)

(** ** Commands *)

Lemma shown_replies tr :
  shown tr =
  omap (λ p : string * bool, if p.2 then Some p.1 else None) (replies tr).
Proof.
  induction tr as [|ev tr IH]; [done|].
  destruct ev as [c d|t [|]|r|l m]; simpl; by rewrite ?IH.
Qed.

Lemma errors_app t1 t2 : errors (t1 ++ t2) = errors t1 ++ errors t2.
Proof. apply omap_app. Qed.

(** The trace of a dispatched update: the handler's, then the error handler's
    entry if the handler raised. *)
Lemma process_update_trace cfg update w ud :
  trace (run_handler (process_update cfg update) w ud).2 =
  trace (run_handler (dispatch cfg update) w ud).2 ++
  match (run_handler (dispatch cfg update) w ud).1 with
  | Ok _ => []
  | Raised e => [Log ERROR (UpdateCausedError update (str e))]
  end.
Proof.
  unfold run_handler, process_update, try_except.
  destruct (dispatch cfg update _) as [[[]|e] [ud' tr' tg' api']]; simpl;
    by rewrite ?app_nil_r.
Qed.

Lemma process_update_replies cfg update w ud :
  replies (trace (run_handler (process_update cfg update) w ud).2) =
  replies (trace (run_handler (dispatch cfg update) w ud).2).
Proof.
  rewrite process_update_trace, replies_app.
  destruct (run_handler _ _ _).1; simpl; by rewrite app_nil_r.
Qed.

Lemma process_update_requests cfg update w ud :
  requests (trace (run_handler (process_update cfg update) w ud).2) =
  requests (trace (run_handler (dispatch cfg update) w ud).2).
Proof.
  rewrite process_update_trace, requests_app.
  destruct (run_handler _ _ _).1; simpl; by rewrite app_nil_r.
Qed.

(** ** The shape of stored dictionaries *)

Lemma well_formed_empty : well_formed empty_user_data.
Proof.
  split; [done|]. split; [done|].
  exists []. split; [done|]. split; [simpl; lia|constructor].
Qed.

Lemma truthy_nonempty resp :
  truthy resp = true → default EmptyString resp ≠ EmptyString.
Proof. by destruct resp as [[|a s]|]. Qed.

(** One more exchange after whole pairs leaves whole pairs, the last 20. *)
Lemma next_history_turns xs u resp :
  truthy resp = true →
  next_history (turns xs) u resp =
  turns (last_n 20 (xs ++ [(u, default EmptyString resp)])).
Proof.
  intros Ht. rewrite next_history_truthy by done.
  by rewrite <- turns_app, <- (last_n_turns 20).
Qed.

Lemma well_formed_store_next ud u resp :
  well_formed ud →
  well_formed (store_messages (next_history (history ud) u resp) ud).
Proof.
  intros (Hint & Hkeys & xs & Hh & Hlen & Hne).
  split; [done|]. split.
  { intros k Hk. simpl. rewrite lookup_insert_ne by done. by apply Hkeys. }
  rewrite history_store_messages. destruct (truthy resp) eqn:Ht.
  - exists (last_n 20 (xs ++ [(u, default EmptyString resp)])).
    split; [by rewrite Hh, next_history_turns|].
    split; [rewrite length_last_n; lia|].
    unfold last_n. apply Forall_drop, Forall_app. split; [done|].
    constructor; [|constructor]. by apply truthy_nonempty.
  - exists xs. by rewrite next_history_falsy.
Qed.

Lemma has_int_key_well_formed uid ud :
  well_formed ud → has_int_key uid ud = false.
Proof.
  intros (Hint & _). unfold has_int_key. rewrite Hint, lookup_empty.
  apply bool_decide_eq_false_2. by intros [? ?].
Qed.

Lemma cleared_well_formed uid ud : well_formed ud → cleared uid ud = ud.
Proof. intros Hwf. unfold cleared. by rewrite has_int_key_well_formed. Qed.

(** Handling any update keeps the sender's dictionary well formed. *)
Lemma well_formed_process_update cfg update w ud :
  well_formed ud →
  well_formed (data (run_handler (process_update cfg update) w ud).2).
Proof.
  intros Hwf. rewrite process_update_data.
  destruct (command update) as [c|] eqn:Hc.
  - destruct (dispatch_command cfg update w ud c Hc) as (_ & _ & ->).
    destruct (effective_user update); [|done].
    case_bool_decide; [|done]. by rewrite cleared_well_formed.
  - unfold dispatch. rewrite Hc, handle_message_data.
    destruct (incoming update) as [[u t]|]; [|done].
    destruct (next_fault _); [done|]. by apply well_formed_store_next.
Qed.

Lemma well_formed_deliver cfg (st : store) uw :
  (∀ v, well_formed (user_data_of st v)) →
  ∀ v, well_formed (user_data_of (deliver cfg st uw).1 v).
Proof.
  intros Hst v. unfold deliver.
  destruct (effective_user uw.1) as [u|]; simpl; [|done].
  rewrite user_data_of_insert.
  destruct (decide _); [|done]. by apply well_formed_process_update.
Qed.

Lemma well_formed_run cfg ups v :
  well_formed (user_data_of (run cfg ups ∅) v).
Proof.
  assert (H : ∀ st : store, (∀ v, well_formed (user_data_of st v)) →
              ∀ v, well_formed (user_data_of (run cfg ups st) v)).
  { induction ups as [|uw ups IH]; intros st Hst; [done|].
    rewrite run_cons. apply IH. by apply well_formed_deliver. }
  apply H. intros u. unfold user_data_of. rewrite lookup_empty.
  apply well_formed_empty.
Qed.

(** X1. On every store reached from start-up, handling [/clear] leaves every
    user's dictionary exactly as it was, the sender's included: no handler
    ever stores the integer key that [clear_history] tests. The same holds
    for every other command, and for [/clear] in any spelling. *)
Theorem clear_changes_nothing_after_startup cfg ups u chat m c w v :
  let st := run cfg ups ∅ in
  user_data_of (deliver cfg st (MkUpdate u chat m (Some "clear"), w)).1 v =
  user_data_of st v ∧
  user_data_of (deliver cfg st (MkUpdate u chat m (Some c), w)).1 v =
  user_data_of st v.
Proof.
  intros st.
  assert (H : ∀ c', user_data_of
                      (deliver cfg st (MkUpdate u chat m (Some c'), w)).1 v =
                    user_data_of st v).
  { intros c'. unfold deliver; simpl. destruct u as [u|]; simpl; [|done].
    rewrite user_data_of_insert.
    destruct (decide _) as [<-|]; [|done].
    rewrite process_update_data.
    destruct (dispatch_command cfg (MkUpdate (Some u) chat m (Some c')) w
                (user_data_of st (id u)) c' eq_refl) as (_ & _ & ->).
    simpl. case_bool_decide; [|done].
    apply cleared_well_formed, well_formed_run. }
  split; apply H.
Qed.

(** X2. Whatever updates are handled from start-up on, no stored history is
    longer than 40 messages. *)
Theorem history_never_exceeds_40 cfg ups v :
  length (history_of (run cfg ups ∅) v) ≤ 40.
Proof.
  destruct (well_formed_run cfg ups v) as (_ & _ & xs & Hh & Hlen & _).
  unfold history_of. rewrite Hh, length_turns. lia.
Qed.

(** X3. Whatever updates are handled from start-up on, every stored history
    is a sequence of whole exchanges: a user message followed by an assistant
    message, again and again. No system message is stored, and no stored
    assistant message is empty. *)
Theorem history_is_whole_exchanges cfg ups v :
  ∃ xs, history_of (run cfg ups ∅) v = turns xs ∧
        Forall (λ p, p.2 ≠ EmptyString) xs ∧
        Forall (λ m, role m ≠ "system") (history_of (run cfg ups ∅) v).
Proof.
  destruct (well_formed_run cfg ups v) as (_ & _ & xs & Hh & _ & Hne).
  exists xs. split; [done|]. split; [done|].
  unfold history_of. rewrite Hh. clear.
  induction xs as [|[u r] xs IH]; simpl; repeat constructor; done.
Qed.

(** X4. Whatever updates are handled from start-up on, the only entry of a
    user's dictionary is the one under ['messages']: there is no integer key
    and no other string key. *)
Theorem dictionary_has_only_messages cfg ups v k :
  int_items (user_data_of (run cfg ups ∅) v) = ∅ ∧
  (k ≠ "messages" → str_items (user_data_of (run cfg ups ∅) v) !! k = None).
Proof.
  destruct (well_formed_run cfg ups v) as (Hint & Hkeys & _).
  split; [done|apply Hkeys].
Qed.

(** ** Single runs *)

Lemma successful_text w a s cs :
  delivered (transport w) = true →
  backend w = Returns (String a s :: cs) →
  next_fault (transport w) = None ∧
  completion_text (backend w) = Some (String a s).
Proof.
  unfold delivered. intros Hd ->. by destruct (next_fault (transport w)).
Qed.

(** X5. When the typing indicator is delivered and the endpoint returns a
    non-empty text, [handle_message] stores the last 40 messages of the old
    history followed by the new user message and the answer: with at most 38
    messages stored nothing is lost, and with 40 stored the oldest exchange
    goes and the rest keeps its order. This holds whatever happens to the
    reply. *)
Theorem exchange_slides_window cfg u chat t c w ud a s cs :
  delivered (transport w) = true →
  backend w = Returns (String a s :: cs) →
  let h := history ud in
  let pair := [Message "user" t; Message "assistant" (String a s)] in
  let h' := history (data (run_handler
                             (handle_message cfg (new_message u chat t c))
                             w ud).2) in
  h' = last_n 40 (h ++ pair) ∧
  (length h ≤ 38 → h' = h ++ pair) ∧
  (length h = 40 → h' = drop 2 h ++ pair) ∧
  length h' ≤ 40.
Proof.
  intros Hd Hb h pair h'.
  destruct (successful_text w a s cs Hd Hb) as [Hnf Hct].
  assert (Hh : h' = last_n 40 (h ++ pair)).
  { unfold h'. rewrite handle_message_history; simpl. rewrite Hnf, Hct.
    by rewrite next_history_truthy. }
  split; [done|]. rewrite Hh. split; [|split].
  - intros Hlen. apply last_n_all. rewrite length_app. simpl. lia.
  - intros Hlen. unfold last_n. rewrite length_app, Hlen. simpl length.
    change (40 + 2 - 40) with 2. rewrite drop_app_le by lia. done.
  - rewrite length_last_n. lia.
Qed.

Lemma exchange_slides_window_witness :
  delivered (transport (answers "OK")) = true ∧
  backend (answers "OK") = Returns ["OK"] ∧
  history (data (run_handler (handle_message cfg0 (says alice "hi"))
                   (answers "OK") empty_user_data).2) =
  [Message "user" "hi"; Message "assistant" "OK"].
Proof.
  split; [reflexivity|]. split; [reflexivity|].
  exact (proj1 (exchange_slides_window cfg0 alice 1 "hi" None (answers "OK")
                  empty_user_data "O" "K" [] eq_refl eq_refl)).
Defined.

(** X6. The history is written before the reply is sent. When the endpoint
    returns a non-empty text and sending it raises, the exchange is stored all
    the same, the fault is logged, and the user is shown the "system error"
    message (nothing at all if that raises too), never the answer. *)
Theorem exchange_stored_though_reply_lost cfg u chat t c w ud a s cs e :
  delivered (transport w) = true →
  backend w = Returns (String a s :: cs) →
  next_fault (tail (transport w)) = Some e →
  let r := run_handler (handle_message cfg (new_message u chat t c)) w ud in
  history (data r.2) =
    last_n 40 (history ud ++ [Message "user" t;
                              Message "assistant" (String a s)]) ∧
  shown (trace r.2) =
    (if delivered (tail (tail (transport w))) then [SYSTEM_ERROR_TEXT]
     else []) ∧
  errors (trace r.2) = [ErrorProcessing (id u) (str e)].
Proof.
  intros Hd Hb He r.
  destruct (successful_text w a s cs Hd Hb) as [Hnf Hct].
  split; [|split].
  - unfold r. rewrite handle_message_history; simpl. rewrite Hnf, Hct.
    by rewrite next_history_truthy.
  - unfold r. rewrite shown_replies, handle_message_replies; simpl.
    rewrite Hnf, He.
    unfold delivered. by destruct (next_fault (tail (tail (transport w)))).
  - unfold r. rewrite turn_run. unfold turn_summary.
    rewrite Hnf, He, Hb.
    by destruct (next_fault (tail (tail (transport w)))).
Qed.

Lemma exchange_stored_though_reply_lost_witness :
  delivered (transport (reply_lost "OK")) = true ∧
  backend (reply_lost "OK") = Returns ["OK"] ∧
  next_fault (tail (transport (reply_lost "OK"))) =
    Some (Exn TelegramError "Timed out") ∧
  shown (trace (run_handler (handle_message cfg0 (says alice "hi"))
                  (reply_lost "OK") empty_user_data).2) =
  [SYSTEM_ERROR_TEXT].
Proof.
  split; [reflexivity|]. split; [reflexivity|]. split; [reflexivity|].
  apply (exchange_stored_though_reply_lost cfg0 alice 1 "hi" None
           (reply_lost "OK") empty_user_data "O" "K" []
           (Exn TelegramError "Timed out") eq_refl eq_refl eq_refl).
Defined.

(** X7. The typing indicator is sent before the [try] block. When it raises,
    handling a new free-text message does nothing else: the dictionary is
    untouched (not even an empty history is installed), the endpoint is not
    called, nothing is sent, and the error handler logs the fault. *)
Theorem typing_fault_aborts cfg u chat t w ud e :
  next_fault (transport w) = Some e →
  let update := new_message u chat t None in
  run_handler (process_update cfg update) w ud =
  (Ok tt,
   HState ud
     [Log INFO (MessageFrom (id u) t);
      ChatAction chat false;
      Log ERROR (UpdateCausedError update (str e))]
     (tail (transport w)) (backend w)).
Proof.
  intros He update. unfold process_update, dispatch, update. simpl.
  pose proof (turn_run cfg u chat t None w ud) as Hrun.
  unfold turn_summary in Hrun. rewrite He in Hrun.
  unfold run_handler, try_except in *. by rewrite Hrun.
Qed.

Lemma typing_fault_aborts_witness :
  next_fault (transport (typing_lost "OK")) =
    Some (Exn TelegramError "Timed out") ∧
  data (run_handler (process_update cfg0 (says alice "hi"))
          (typing_lost "OK") empty_user_data).2 = empty_user_data.
Proof.
  split; [reflexivity|].
  exact (f_equal (λ r : result unit * hstate, data r.2)
           (typing_fault_aborts cfg0 alice 1 "hi" (typing_lost "OK")
              empty_user_data (Exn TelegramError "Timed out") eq_refl)).
Defined.

(** X8. [call_openai_api] never raises, whatever the endpoint does: it
    returns [None] exactly when the endpoint raised or returned no choice. It
    leaves the dictionary alone and sends nothing to the user. It logs one
    error per failure and none on success; an authentication failure is
    logged without the text of the exception. *)
Theorem call_openai_api_absorbs_errors cfg msgs ud tr tg o :
  let r := call_openai_api cfg msgs (HState ud tr tg o) in
  (∃ resp, r.1 = Ok resp ∧ (resp = None ↔ failed o = true)) ∧
  data r.2 = ud ∧ telegram r.2 = tg ∧
  replies (trace r.2) = replies tr ∧
  errors (trace r.2) =
    errors tr ++
    match o with
    | Returns (_ :: _) => []
    | Returns [] => [OpenAIUnexpected "list index out of range"]
    | Raises e =>
        [match cls e with
         | APIError => OpenAIAPIError (str e)
         | AuthenticationError => OpenAIAuthFailed
         | _ => OpenAIUnexpected (str e)
         end]
    end.
Proof.
  intros r. unfold r. rewrite call_openai_api_run. cbn [fst snd data trace telegram].
  split.
  { exists (completion_text o). split; [done|].
    by rewrite failed_completion_text. }
  split; [done|]. split; [done|]. split.
  - change (?t ++ ?x :: ?l) with (t ++ [x] ++ l).
    rewrite !replies_app, replies_api_log. simpl. by rewrite app_nil_r.
  - change (?t ++ ?x :: ?l) with (t ++ [x] ++ l).
    rewrite !errors_app. simpl. f_equal.
    by destruct o as [[|c cs]|[[] d]].
Qed.

(** ** Commands, menu and start-up *)

(** X9. A command, registered or not, never calls the endpoint and never
    changes anybody's stored history, on any store and whatever the transport
    does; a command other than [/clear] leaves every dictionary exactly as it
    was. *)
Theorem commands_leave_history cfg (st : store) uw c v :
  command uw.1 = Some c →
  requests (deliver cfg st uw).2 = [] ∧
  history_of (deliver cfg st uw).1 v = history_of st v ∧
  (lower c ≠ "clear" →
   user_data_of (deliver cfg st uw).1 v = user_data_of st v).
Proof.
  intros Hc. split; [|split].
  - unfold deliver. destruct (effective_user uw.1) as [u|]; simpl;
      rewrite process_update_requests.
    + by destruct (dispatch_command cfg uw.1 uw.2 (user_data_of st (id u))
                     c Hc) as (-> & _).
    + by destruct (dispatch_command cfg uw.1 uw.2 empty_user_data c Hc)
        as (-> & _).
  - by rewrite deliver_history, Hc.
  - intros Hne. unfold deliver.
    destruct (effective_user uw.1) as [u|] eqn:Hu; simpl; [|done].
    rewrite user_data_of_insert.
    destruct (decide _) as [<-|]; [|done].
    rewrite process_update_data.
    destruct (dispatch_command cfg uw.1 uw.2 (user_data_of st (id u)) c Hc)
      as (_ & _ & ->).
    rewrite Hu. by rewrite bool_decide_eq_false_2.
Qed.

Lemma commands_leave_history_witness :
  command (slash alice "help") = Some "help" ∧
  requests (deliver cfg0 ∅ (slash alice "help", answers "unused")).2 = [].
Proof.
  split; [reflexivity|].
  exact (proj1 (commands_leave_history cfg0 ∅
                  (slash alice "help", answers "unused") "help" 1 eq_refl)).
Defined.

(** X10. The menu registered by [post_init] and the handlers registered by
    [main] agree on new messages: a command typed in any mix of capital and
    small letters is answered with a text exactly when its lower-case form is
    in the menu, and any other command is dropped without a reply. A command
    in an edited message is not answered, in the menu or not. *)
Theorem menu_matches_handlers cfg u eu chat t c w ud :
  (replies (trace (run_handler
                     (dispatch cfg (new_message u chat t (Some c)))
                     w ud).2) ≠ []
   ↔ lower c ∈ map bot_command post_init) ∧
  replies (trace (run_handler
                    (dispatch cfg (MkUpdate eu chat None (Some c)))
                    w ud).2) = [].
Proof.
  split.
  - destruct (dispatch_command cfg (new_message u chat t (Some c)) w ud c
                eq_refl) as (_ & [txt ->] & _).
    change (map bot_command post_init)
      with ["start"; "help"; "about"; "clear"].
    unfold reaches_reply; simpl. rewrite orb_true_r, andb_true_r.
    case_bool_decide; split; done.
  - destruct (dispatch_command cfg (MkUpdate eu chat None (Some c)) w ud c
                eq_refl) as (_ & [txt ->] & _).
    unfold reaches_reply; simpl. by rewrite andb_false_r.
Qed.

(** X11. [main] polls exactly when both credentials are set and not empty,
    and then with the token of the environment. When the Telegram token is
    missing or empty it raises [ValueError] about the token, whether or not
    the OpenAI key is there; an empty value counts as missing. *)
Theorem main_needs_both_credentials (environ : gmap string string) tok :
  ((∃ t, (main environ).2 = Polling t) ↔
   truthy (environ !! "TELEGRAM_BOT_TOKEN") = true ∧
   truthy (environ !! "OPENAI_API_KEY") = true) ∧
  ((main environ).2 = Polling tok →
   environ !! "TELEGRAM_BOT_TOKEN" = Some tok ∧
   (main environ).1 = [BotStarting]) ∧
  (truthy (environ !! "TELEGRAM_BOT_TOKEN") = false →
   main environ = ([TokenNotSet], ValueError "TELEGRAM_BOT_TOKEN is required")).
Proof.
  unfold main.
  destruct (environ !! "TELEGRAM_BOT_TOKEN") as [[|a s]|];
    destruct (truthy (environ !! "OPENAI_API_KEY")); simpl;
    (split; [|split]); try done;
    try (split; [by intros [? ?]|by intros [? ?]]);
    try (by intros [=]).
  - split; [done|]. intros _. by eexists.
  - by intros [= <-].
Qed.

Lemma cleared_twice uid ud : cleared uid (cleared uid ud) = cleared uid ud.
Proof.
  unfold cleared. destruct (has_int_key uid ud) eqn:Hk.
  - unfold has_int_key at 1. simpl. rewrite lookup_insert_eq.
    rewrite bool_decide_eq_true_2 by eauto. simpl.
    by rewrite insert_insert_eq.
  - by rewrite Hk.
Qed.

Lemma clear_history_data update w ud :
  data (run_handler (clear_history update) w ud).2 =
  match effective_user update with
  | Some u => cleared (id u) ud
  | None => ud
  end.
Proof.
  rewrite clear_history_run.
  destruct (effective_user update) as [u|]; [|done].
  destruct (update_message update); [|done].
  by destruct (next_fault (transport w)).
Qed.

(** X12. [clear_history] is idempotent on every dictionary, with or without
    the integer key it looks for, and it never changes an entry under a string
    key. *)
Theorem clear_history_idempotent update w1 w2 ud :
  let ud1 := data (run_handler (clear_history update) w1 ud).2 in
  data (run_handler (clear_history update) w2 ud1).2 = ud1 ∧
  str_items ud1 = str_items ud ∧
  history ud1 = history ud.
Proof.
  intros ud1. unfold ud1.
  split; [|split; [apply clear_history_str_items|apply clear_history_history]].
  rewrite !clear_history_data.
  destruct (effective_user update); [apply cleared_twice|done].
Qed.

(** ** Bounds on what one update does *)

Lemma process_update_request_size cfg update w ud :
  well_formed ud →
  Forall (λ r, length (messages r) ≤ 42)
         (requests (trace (run_handler (process_update cfg update) w ud).2)).
Proof.
  intros (_ & _ & xs & Hh & Hlen & _). rewrite process_update_requests.
  destruct (command update) as [c|] eqn:Hc.
  - destruct (dispatch_command cfg update w ud c Hc) as (-> & _).
    constructor.
  - unfold dispatch. rewrite Hc, handle_message_requests.
    destruct (incoming update) as [[u t]|]; [|constructor].
    destruct (next_fault _); constructor; [|constructor]. simpl.
    rewrite length_app, Hh, length_turns. simpl. lia.
Qed.

(** X13. On every store reached from start-up, a request to the endpoint
    carries at most 42 messages: the system message, at most 40 stored
    messages and the new one. *)
Theorem request_size_bounded cfg ups uw :
  Forall (λ r, length (messages r) ≤ 42)
         (requests (deliver cfg (run cfg ups ∅) uw).2).
Proof.
  unfold deliver. destruct (effective_user uw.1); simpl;
    apply process_update_request_size;
    [apply well_formed_run|apply well_formed_empty].
Qed.

Lemma process_update_counts cfg update w ud :
  let tr := trace (run_handler (process_update cfg update) w ud).2 in
  length (requests tr) ≤ 1 ∧ length (replies tr) ≤ 2 ∧ length (shown tr) ≤ 1.
Proof.
  cbv zeta.
  rewrite shown_replies, process_update_requests, process_update_replies.
  destruct (command update) as [c|] eqn:Hc.
  - destruct (dispatch_command cfg update w ud c Hc) as (-> & [txt ->] & _).
    destruct (_ && _); simpl; [|lia].
    destruct (delivered _); simpl; lia.
  - unfold dispatch. rewrite Hc, handle_message_requests,
      handle_message_replies.
    destruct (incoming update) as [[u t]|]; [|simpl; lia].
    destruct (next_fault (transport w)); simpl; [lia|].
    destruct (next_fault (tail (transport w))); simpl; [|lia].
    destruct (delivered _); simpl; lia.
Qed.

(** X14. Handling one update, whatever it is, calls the endpoint at most
    once, tries at most two replies and shows the user at most one text. *)
Theorem one_update_one_text cfg (st : store) uw :
  length (requests (deliver cfg st uw).2) ≤ 1 ∧
  length (replies (deliver cfg st uw).2) ≤ 2 ∧
  length (shown (deliver cfg st uw).2) ≤ 1.
Proof.
  unfold deliver. destruct (effective_user uw.1); simpl;
    apply process_update_counts.
Qed.

(** X15. [handle_message] creates the history on first use: once the typing
    indicator is delivered, the key ['messages'] is in the dictionary
    afterwards, also when the endpoint fails, and a first message that fails
    leaves an empty history behind. *)
Theorem history_created_on_first_use cfg u chat t c w ud :
  delivered (transport w) = true →
  let ud' := data (run_handler (handle_message cfg (new_message u chat t c))
                     w ud).2 in
  str_items ud' !! "messages" = Some (history ud') ∧
  (failed (backend w) = true → str_items ud !! "messages" = None →
   str_items ud' = <["messages" := []]> (str_items ud)).
Proof.
  intros Hd ud'. unfold delivered in Hd. unfold ud'.
  rewrite handle_message_data; simpl.
  destruct (next_fault (transport w)); [done|]. split.
  - rewrite history_store_messages. simpl. by rewrite lookup_insert_eq.
  - intros Hf%failed_completion_text Hnone. rewrite Hf. simpl.
    rewrite next_history_falsy by done. unfold history. by rewrite Hnone.
Qed.

Lemma history_created_on_first_use_witness :
  delivered (transport unauthorized) = true ∧
  str_items (data (run_handler (handle_message cfg0 (says alice "hi"))
                     unauthorized empty_user_data).2) !! "messages" =
  Some [].
Proof.
  split; [reflexivity|].
  exact (proj1 (history_created_on_first_use cfg0 alice 1 "hi" None
                  unauthorized empty_user_data eq_refl)).
Defined.

(** ** Updates without a new message *)

(** X16. [main] asks for all update types, so the handlers also get edited
    messages and channel posts, for which [update.message] is [None]. Handling
    such an update sends nothing and does not call the endpoint, and the
    history of the sender is as it was. When its text is not a command,
    [handle_message] raises [AttributeError] on its first lines: the
    dictionary is untouched, not even the typing indicator is sent, and the
    only trace is the entry of the error handler. *)
Theorem update_without_message cfg update w ud :
  update_message update = None →
  let r := run_handler (process_update cfg update) w ud in
  r.1 = Ok tt ∧
  replies (trace r.2) = [] ∧
  requests (trace r.2) = [] ∧
  history (data r.2) = history ud ∧
  (command update = None →
   data r.2 = ud ∧
   ∃ name, trace r.2 =
           [Log ERROR (UpdateCausedError update (str (no_attribute name)))]).
Proof.
  intros Hm r. unfold r.
  assert (Hin : incoming update = None).
  { unfold incoming. rewrite Hm. by destruct (effective_user update). }
  split; [apply process_update_returns|].
  rewrite process_update_replies, process_update_requests,
    process_update_history, process_update_data, process_update_trace, Hin.
  destruct (command update) as [c|] eqn:Hc.
  - destruct (dispatch_command cfg update w ud c Hc) as (-> & [txt ->] & _).
    unfold reaches_reply. rewrite Hm.
    rewrite (bool_decide_eq_false_2 (is_Some None)) by (by intros [? ?]).
    by rewrite andb_false_r.
  - unfold dispatch. rewrite Hc, handle_message_replies,
      handle_message_requests, handle_message_data, Hin.
    split_and!; try done. intros _. split; [done|].
    rewrite handle_message_run. unfold handle_message_summary. rewrite Hm.
    destruct (effective_user update); by eexists.
Qed.

Lemma update_without_message_witness :
  update_message (edited (says alice "hi")) = None ∧
  (run_handler (process_update cfg0 (edited (says alice "hi")))
     (answers "OK") empty_user_data).1 = Ok tt.
Proof.
  split; [reflexivity|].
  exact (proj1 (update_without_message cfg0 (edited (says alice "hi"))
                  (answers "OK") empty_user_data eq_refl)).
Defined.
